(** * Lambda Cloud instance launcher: the launch / poll / retry procedure

    A shallow embedding of [launch_instance.py] (the interactive script that
    provisions Lambda Cloud instances) and the properties of its launch loop.

    The script is a sequence of prompts, HTTP exchanges and prints.  It is
    embedded as a state-and-exception monad over

    - the local variables of [main] that are assigned inside loops,
    - the position in the two sequences supplied by the outside world (the
      lines typed by the operator and the results of the HTTP exchanges),
    - the trace of everything the script has done so far.

    Python's [while] loops take a bound on their number of iterations; a loop
    that exhausts it yields [OutOfFuel], which is how a run that does not
    terminate shows up.  A run that ends within the bound is not changed by
    a larger one ([main_bound]).

    What the embedding leaves out: the operator always answers a prompt (no
    end of input, no interrupt); a character is a code point below 256; a
    JSON number is an integer; the text of a print is kept as its pieces. *)

From Stdlib Require Import String Ascii List ZArith Lia Bool Arith.
Import ListNotations.
Open Scope string_scope.
Open Scope list_scope.
Set Warnings "-register-all".

(** ** Values decoded from JSON, with the Python operations the script uses *)

Module Py.

(** What [response.json()] can return.  Objects keep the order of their keys;
    a number stands for its integer value (the script only ever tests a number
    for truth, where a fraction behaves as a non-zero integer). *)
Inductive json : Type :=
| JNull
| JBool (b : bool)
| JNum (z : Z)
| JStr (s : string)
| JArr (l : list json)
| JObj (kv : list (string * json)).

(** The built-in exceptions that the expressions of the script can raise. *)
Inductive error : Type :=
| KeyError (k : string)     (* d[k], k not a key of the dict d *)
| KeyErrorInt (i : Z)       (* d[0] on a dict decoded from JSON *)
| TypeError
| AttributeError
| ValueError.

Definition res (A : Type) : Type := (error + A)%type.

(** [bool(v)] *)
Definition truthy (v : json) : bool :=
  match v with
  | JNull => false
  | JBool b => b
  | JNum z => negb (Z.eqb z 0)
  | JStr s => negb (String.eqb s "")
  | JArr l => match l with [] => false | _ :: _ => true end
  | JObj kv => match kv with [] => false | _ :: _ => true end
  end.

(** [v == s] for a string [s]: a string equals only the same string. *)
Definition eq_str (v : json) (s : string) : bool :=
  match v with
  | JStr t => String.eqb t s
  | _ => false
  end.

Fixpoint lookup {V : Type} (k : string) (kv : list (string * V)) : option V :=
  match kv with
  | [] => None
  | (k', v) :: rest => if String.eqb k k' then Some v else lookup k rest
  end.

(** [sub in s] on strings. *)
Fixpoint substring_of (sub s : string) : bool :=
  prefix sub s ||
  match s with
  | EmptyString => false
  | String _ s' => substring_of sub s'
  end.

(** [k in v] *)
Definition contains (k : string) (v : json) : res bool :=
  match v with
  | JObj kv => inr (match lookup k kv with Some _ => true | None => false end)
  | JArr l => inr (existsb (fun x => eq_str x k) l)
  | JStr s => inr (substring_of k s)
  | JNull | JBool _ | JNum _ => inl TypeError
  end.

(** [v[k]] for a string key [k] *)
Definition getitem (v : json) (k : string) : res json :=
  match v with
  | JObj kv => match lookup k kv with Some x => inr x | None => inl (KeyError k) end
  | _ => inl TypeError
  end.

(** [v.get(k, default)]: only dicts have the method. *)
Definition get (v : json) (k : string) (default : json) : res json :=
  match v with
  | JObj kv => inr (match lookup k kv with Some x => x | None => default end)
  | _ => inl AttributeError
  end.

(** [v[0]] for a value [v] that has passed a truth test. *)
Definition first (v : json) : res json :=
  match v with
  | JArr (x :: _) => inr x
  | JStr (String c _) => inr (JStr (String c EmptyString))
  | JObj _ => inl (KeyErrorInt 0)
  | _ => inl TypeError
  end.

(** [list(v.keys())] *)
Definition keys (v : json) : res (list string) :=
  match v with
  | JObj kv => inr (map fst kv)
  | _ => inl AttributeError
  end.

Fixpoint chars (s : string) : list json :=
  match s with
  | EmptyString => []
  | String c s' => JStr (String c EmptyString) :: chars s'
  end.

(** The values [for x in v] goes through. *)
Definition iter (v : json) : res (list json) :=
  match v with
  | JArr l => inr l
  | JObj kv => inr (map (fun p => JStr (fst p)) kv)
  | JStr s => inr (chars s)
  | JNull | JBool _ | JNum _ => inl TypeError
  end.

(** [[f(x) for x in l]]: the first exception ends the comprehension. *)
Fixpoint comprehension {A B : Type} (f : A -> res B) (l : list A) : res (list B) :=
  match l with
  | [] => inr []
  | x :: rest =>
      match f x with
      | inl e => inl e
      | inr y =>
          match comprehension f rest with
          | inl e => inl e
          | inr ys => inr (y :: ys)
          end
      end
  end.

(** [s in l] for a list of decoded values. *)
Definition in_values (s : string) (l : list json) : bool :=
  existsb (fun x => eq_str x s) l.

(** [s in l] for a list of strings. *)
Definition in_strings (s : string) (l : list string) : bool :=
  existsb (String.eqb s) l.

(** *** [str.isdigit], [int] and [str.lower]

    A character is a code point below 256.  In that range [isdigit] holds of
    the ten decimal digits and of the superscripts U+00B2, U+00B3 and U+00B9,
    which [int] refuses. *)
Definition is_decimal (c : ascii) : bool :=
  (48 <=? nat_of_ascii c)%nat && (nat_of_ascii c <=? 57)%nat.

Definition is_digit (c : ascii) : bool :=
  is_decimal c ||
  (nat_of_ascii c =? 178)%nat || (nat_of_ascii c =? 179)%nat || (nat_of_ascii c =? 185)%nat.

Fixpoint all_chars (p : ascii -> bool) (s : string) : bool :=
  match s with
  | EmptyString => true
  | String c s' => p c && all_chars p s'
  end.

Definition isdigit (s : string) : bool :=
  negb (String.eqb s "") && all_chars is_digit s.

Fixpoint decimal_value (acc : Z) (s : string) : Z :=
  match s with
  | EmptyString => acc
  | String c s' => decimal_value (10 * acc + Z.of_nat (nat_of_ascii c - 48)) s'
  end.

(** [int(s)] for a string that passed [isdigit] (so without sign, blank or
    underscore). *)
Definition int (s : string) : res Z :=
  if negb (String.eqb s "") && all_chars is_decimal s
  then inr (decimal_value 0 s)
  else inl ValueError.

Definition lower_char (c : ascii) : ascii :=
  let n := nat_of_ascii c in
  if ((65 <=? n) && (n <=? 90) ||
      (192 <=? n) && (n <=? 222) && negb (n =? 215))%nat
  then ascii_of_nat (n + 32)
  else c.

Fixpoint lower (s : string) : string :=
  match s with
  | EmptyString => EmptyString
  | String c s' => String (lower_char c) (lower s')
  end.

End Py.
Import Py.

(** ** The static catalog and the validation helpers *)

Definition INSTANCE_TYPES_AND_REGIONS : list (string * list string) :=
  [ ("gpu_8x_h100_sxm5", ["us-west-3"]);
    ("gpu_1x_h100_pcie", ["us-west-3"]);
    ("gpu_8x_a100_80gb_sxm4", ["us-midwest-1"]);
    ("gpu_1x_a10", ["us-east-1"; "us-west-1"]);
    ("gpu_1x_rtx6000", ["us-south-1"]);
    ("gpu_1x_a100", ["us-south-1"]);
    ("gpu_1x_a100_sxm4", ["us-east-1"; "us-west-2"; "asia-south-1"]);
    ("gpu_2x_a100", ["us-south-1"]);
    ("gpu_4x_a100", ["us-south-1"]);
    ("gpu_8x_a100",
      [ "me-west-1"; "asia-northeast-2"; "us-west-2"; "us-west-1";
        "europe-central-1"; "asia-northeast-1"; "us-east-1" ]);
    ("gpu_1x_a6000", ["us-south-1"]);
    ("gpu_2x_a6000", ["us-south-1"]);
    ("gpu_4x_a6000", ["us-south-1"]);
    ("gpu_8x_v100", ["us-south-1"]);
    ("cpu_4x_general", ["not available"]);
    ("gpu_8x_h100_sxm5raidz1", ["us-south-2"]) ].

Definition get_instance_types : list string :=
  map fst INSTANCE_TYPES_AND_REGIONS.

(** What [get_regions_for_instance_type] returns: a list of regions, or a
    message (a plain string) when there is none. *)
Inductive regions_result : Type :=
| Regions (regions : list string)
| Message (text : string).

Definition get_regions_for_instance_type (instance_type : string) : regions_result :=
  let regions := lookup instance_type INSTANCE_TYPES_AND_REGIONS in
  match regions with
  | Some (r :: rs) => Regions (r :: rs)      (* if regions: *)
  | Some [] | None => Message "Instance type not found"
  end.

(** [region_name in available_regions] *)
Definition in_regions (region_name : string) (available : regions_result) : bool :=
  match available with
  | Regions l => in_strings region_name l
  | Message text => substring_of region_name text
  end.

Definition regions_value (available : regions_result) : json :=
  match available with
  | Regions l => JArr (map JStr l)
  | Message text => JStr text
  end.

(** ** The outside world, the trace and the state *)

(** The body of [POST instance-operations/launch] (the dict [data] of
    [launch_instance]). *)
Record launch_data : Type := {
  d_region_name : json;
  d_instance_type_name : string;
  d_ssh_key_names : list string;
  d_file_system_names : list string;
  d_quantity : string
}.

(** How an exchange can fail before a decoded body is at hand. *)
Inductive transport : Type :=
| Timeout            (* requests.exceptions.Timeout *)
| ConnectionFailed   (* requests.exceptions.ConnectionError *)
| MalformedBody.     (* response.json() on a body that is not JSON *)

(** An HTTP request; every one carries the API key as the user name of basic
    authentication. *)
Inductive request : Type :=
| GetInstanceTypes (api_key : string)
| GetSshKeys (api_key : string)
| GetFileSystems (api_key : string)
| PostLaunch (api_key : string) (data : launch_data).

(** The result of one exchange, request and [response.json()] together. *)
Definition http_result : Type := (transport + json)%type.

(** What the script does, in order.  A print is kept as the sequence of its
    pieces (the arguments of [print], the parts of an f-string); how values
    are rendered is not modelled. *)
Inductive Event : Type :=
| EvInput (prompt line : string)
| EvPrint (pieces : list json)
| EvHttp (req : request) (result : http_result)
| EvSleep (seconds : Z).

(** The outside world of one run: the lines the operator types and the
    results of the HTTP exchanges, in the order the script asks for them. *)
Record World : Type := {
  stdin : nat -> string;
  http : nat -> http_result
}.

(** The locals of [main] that loops assign.  Before their first assignment
    they hold the values of [unset], which the script never reads. *)
Record Locals : Type := {
  api_key : string;
  desired_instance_type : string;
  region_name : json;
  ssh_key_name : string;
  filesystem_name : option string;    (* None is Python's None *)
  quantity : string;
  continue_loop : bool
}.

Definition unset : Locals :=
  {| api_key := ""; desired_instance_type := ""; region_name := JNull;
     ssh_key_name := ""; filesystem_name := None; quantity := "";
     continue_loop := false |}.

Record State : Type := {
  vars : Locals;
  n_input : nat;         (* lines read so far *)
  n_http : nat;          (* HTTP exchanges so far *)
  trace : list Event
}.

Definition initial : State :=
  {| vars := unset; n_input := 0; n_http := 0; trace := [] |}.

(** ** The monad *)

(** What can reach the top of the script: a built-in exception from an
    expression, or an exception of the [requests] library from an exchange. *)
Inductive exn : Type :=
| Builtin (e : error)
| Requests (t : transport).

Inductive outcome (A : Type) : Type :=
| Done (a : A)
| Break                  (* a [break] looking for its loop *)
| Raise (e : exn)
| OutOfFuel.
Arguments Done {A} a.
Arguments Break {A}.
Arguments Raise {A} e.
Arguments OutOfFuel {A}.

Definition M (A : Type) : Type := State -> outcome A * State.

Definition ret {A : Type} (a : A) : M A := fun st => (Done a, st).

Definition bind {A B : Type} (m : M A) (f : A -> M B) : M B :=
  fun st =>
    match m st with
    | (Done a, st') => f a st'
    | (Break, st') => (Break, st')
    | (Raise e, st') => (Raise e, st')
    | (OutOfFuel, st') => (OutOfFuel, st')
    end.

Declare Scope py_scope.
Delimit Scope py_scope with py.
Notation "x <- m ;; k" := (bind m (fun x => k))
  (at level 100, m at next level, right associativity) : py_scope.
Notation "m ;; k" := (bind m (fun _ => k))
  (at level 100, right associativity) : py_scope.
Open Scope py_scope.

Definition break {A : Type} : M A := fun st => (Break, st).
Definition raise {A : Type} (e : exn) : M A := fun st => (Raise e, st).
Definition pass : M unit := ret tt.

(** An expression that may raise. *)
Definition eval {A : Type} (r : res A) : M A :=
  match r with
  | inl e => raise (Builtin e)
  | inr a => ret a
  end.

Definition read {A : Type} (f : Locals -> A) : M A :=
  fun st => (Done (f (vars st)), st).

Definition assign (f : Locals -> Locals) : M unit :=
  fun st =>
    (Done tt, {| vars := f (vars st); n_input := n_input st;
                 n_http := n_http st; trace := trace st |}).

Definition emit (e : Event) : M unit :=
  fun st =>
    (Done tt, {| vars := vars st; n_input := n_input st;
                 n_http := n_http st; trace := trace st ++ [e] |}).

Definition set_api_key (v : string) : M unit :=
  assign (fun l => {| api_key := v; desired_instance_type := desired_instance_type l;
    region_name := region_name l; ssh_key_name := ssh_key_name l;
    filesystem_name := filesystem_name l; quantity := quantity l;
    continue_loop := continue_loop l |}).
Definition set_desired_instance_type (v : string) : M unit :=
  assign (fun l => {| api_key := api_key l; desired_instance_type := v;
    region_name := region_name l; ssh_key_name := ssh_key_name l;
    filesystem_name := filesystem_name l; quantity := quantity l;
    continue_loop := continue_loop l |}).
Definition set_region_name (v : json) : M unit :=
  assign (fun l => {| api_key := api_key l; desired_instance_type := desired_instance_type l;
    region_name := v; ssh_key_name := ssh_key_name l;
    filesystem_name := filesystem_name l; quantity := quantity l;
    continue_loop := continue_loop l |}).
Definition set_ssh_key_name (v : string) : M unit :=
  assign (fun l => {| api_key := api_key l; desired_instance_type := desired_instance_type l;
    region_name := region_name l; ssh_key_name := v;
    filesystem_name := filesystem_name l; quantity := quantity l;
    continue_loop := continue_loop l |}).
Definition set_filesystem_name (v : option string) : M unit :=
  assign (fun l => {| api_key := api_key l; desired_instance_type := desired_instance_type l;
    region_name := region_name l; ssh_key_name := ssh_key_name l;
    filesystem_name := v; quantity := quantity l;
    continue_loop := continue_loop l |}).
Definition set_quantity (v : string) : M unit :=
  assign (fun l => {| api_key := api_key l; desired_instance_type := desired_instance_type l;
    region_name := region_name l; ssh_key_name := ssh_key_name l;
    filesystem_name := filesystem_name l; quantity := v;
    continue_loop := continue_loop l |}).
Definition set_continue_loop (v : bool) : M unit :=
  assign (fun l => {| api_key := api_key l; desired_instance_type := desired_instance_type l;
    region_name := region_name l; ssh_key_name := ssh_key_name l;
    filesystem_name := filesystem_name l; quantity := quantity l;
    continue_loop := v |}).

(** [while cond: body], at most [n] iterations. *)
Fixpoint while (n : nat) (cond : Locals -> bool) (body : M unit) : M unit :=
  fun st =>
    match n with
    | O => (OutOfFuel, st)
    | S n' =>
        if cond (vars st) then
          match body st with
          | (Done _, st') => while n' cond body st'
          | (Break, st') => (Done tt, st')
          | (Raise e, st') => (Raise e, st')
          | (OutOfFuel, st') => (OutOfFuel, st')
          end
        else (Done tt, st)
    end.

(** ** The script *)

Definition insufficient_capacity : string :=
  "instance-operations/launch/insufficient-capacity".

Section Script.

Variable world : World.
Variable fuel : nat.      (* bound on the iterations of each loop *)

Definition input (prompt : string) : M string :=
  fun st =>
    let line := stdin world (n_input st) in
    (Done line,
     {| vars := vars st; n_input := S (n_input st); n_http := n_http st;
        trace := trace st ++ [EvInput prompt line] |}).

Definition print (pieces : list json) : M unit := emit (EvPrint pieces).

Definition sleep (seconds : Z) : M unit := emit (EvSleep seconds).

(** One exchange: [requests.get] or [requests.post] followed by
    [response.json()].  A timeout, a failed connection or a body that is not
    JSON raises; nothing in the script catches it. *)
Definition exchange (req : request) : M json :=
  fun st =>
    let result := http world (n_http st) in
    let st' := {| vars := vars st; n_input := n_input st; n_http := S (n_http st);
                  trace := trace st ++ [EvHttp req result] |} in
    match result with
    | inl t => (Raise (Requests t), st')
    | inr body => (Done body, st')
    end.

Definition get_available_instances (api_key : string) : M json :=
  exchange (GetInstanceTypes api_key).

Definition get_ssh_keys (api_key : string) : M (list json) :=
  data <- exchange (GetSshKeys api_key) ;;
  items <- eval (getitem data "data") ;;
  items <- eval (iter items) ;;
  eval (comprehension (fun key => getitem key "name") items).

Definition get_file_systems (api_key : string) : M (list json) :=
  data <- exchange (GetFileSystems api_key) ;;
  items <- eval (getitem data "data") ;;
  items <- eval (iter items) ;;
  eval (comprehension (fun key => getitem key "name") items).

Definition launch_instance (api_key : string) (region_name : json)
    (desired_instance_type ssh_key_name : string)
    (file_system_name : option string) (quantity : string) : M json :=
  let data :=
    {| d_region_name := region_name;
       d_instance_type_name := desired_instance_type;
       d_ssh_key_names := [ssh_key_name];
       d_file_system_names :=
         match file_system_name with
         | Some name => if String.eqb name "" then [] else [name]
         | None => []
         end;
       d_quantity := quantity |} in
  exchange (PostLaunch api_key data).

Definition get_valid_instance_types (api_key : string) : M (list string) :=
  instance_data <- get_available_instances api_key ;;
  instances <- eval (get instance_data "data" (JObj [])) ;;
  eval (keys instances).

(** [launch_instance] on the current values of the locals. *)
Definition launch_with_locals : M json :=
  key <- read api_key ;;
  region <- read region_name ;;
  type <- read desired_instance_type ;;
  ssh <- read ssh_key_name ;;
  fs <- read filesystem_name ;;
  q <- read quantity ;;
  launch_instance key region type ssh fs q.

(** ["error" in launch_response and
     launch_response["error"].get("code") != insufficient_capacity] *)
Definition other_error (launch_response : json) : M bool :=
  has_error <- eval (contains "error" launch_response) ;;
  if has_error : bool then
    error <- eval (getitem launch_response "error") ;;
    code <- eval (get error "code" JNull) ;;
    ret (negb (eq_str code insufficient_capacity))
  else ret false.

(** *** The prompts of [main] *)

Definition api_key_input : M unit :=
  while fuel (fun _ => true)
    (key <- input "API key: " ;;
     set_api_key key ;;
     valid_instance_types <- get_valid_instance_types key ;;
     match valid_instance_types with
     | [] => print [JStr "API key is invalid or has no permissions."]
     | _ :: _ => break
     end).

Definition instance_type_selection : M unit :=
  let instance_types := get_instance_types in
  print [JStr "
Available instance types:"; JArr (map JStr instance_types); JStr "
"] ;;
  while fuel (fun _ => true)
    (type <- input "Enter the desired instance type: " ;;
     set_desired_instance_type type ;;
     if negb (in_strings type instance_types)
     then print [JStr "Invalid instance type. Please choose from the available types."]
     else break).

Definition region_selection : M unit :=
  type <- read desired_instance_type ;;
  print [JStr "
Available regions for "; JStr type; JStr ": "] ;;
  let available_regions := get_regions_for_instance_type type in
  print [regions_value available_regions] ;;
  while fuel (fun _ => true)
    (region <- input "Region name: " ;;
     set_region_name (JStr region) ;;
     if negb (String.eqb region "") && negb (in_regions region available_regions)
     then print [JStr "Invalid region name. Please choose from the available regions."]
     else break).

Definition ssh_key_selection : M unit :=
  key <- read api_key ;;
  ssh_key_names <- get_ssh_keys key ;;
  print [JStr "
Available SSH keys:
 "; JArr ssh_key_names] ;;
  while fuel (fun _ => true)
    (name <- input "Enter the SSH key name you would like to use: " ;;
     set_ssh_key_name name ;;
     if in_values name ssh_key_names
     then break
     else print [JStr "Invalid SSH key name. Please choose from the available SSH keys."]).

Definition file_system_selection : M unit :=
  while fuel (fun _ => true)
    (use_filesystem <- input "Would you like to attach a file system? (y/n): " ;;
     if String.eqb (lower use_filesystem) "y" then
       key <- read api_key ;;
       filesystem_names <- get_file_systems key ;;
       print [JStr "
Available file systems:
 "; JArr filesystem_names] ;;
       while fuel (fun _ => true)
         (name <- input "Enter filesystem name you would like to use: " ;;
          set_filesystem_name (Some name) ;;
          if in_values name filesystem_names
          then break
          else print [JStr "Invalid filesystem name. Please choose from the available file systems."]) ;;
       break
     else if String.eqb (lower use_filesystem) "n" then
       set_filesystem_name None ;;
       break
     else print [JStr "Invalid input. Please enter 'y' or 'n'."]).

Definition quantity_selection : M unit :=
  while fuel (fun _ => true)
    (q <- input "Enter the number of instances you would like to launch (1-9): " ;;
     set_quantity q ;;
     if isdigit q then
       number <- eval (int q) ;;
       if ((1 <=? number) && (number <=? 9))%Z
       then break
       else print [JStr "Invalid input. Please enter a number between 1 and 9."]
     else print [JStr "Invalid input. Please enter a number between 1 and 9."]).

(** *** The instance launch loop *)

(** The body of the inner [while True]: one capacity poll and, when the
    instance type shows capacity, the launch that follows it. *)
Definition poll_body : M unit :=
  key <- read api_key ;;
  instance_data <- get_available_instances key ;;
  instances <- eval (get instance_data "data" (JObj [])) ;;
  type <- read desired_instance_type ;;
  instance_details <- eval (get instances type JNull) ;;
  (if truthy instance_details then
     regions_available <-
       eval (get instance_details "regions_with_capacity_available" (JArr [])) ;;
     if truthy regions_available then
       region <- read region_name ;;
       (if eq_str region "" then
          head <- eval (first regions_available) ;;
          name <- eval (getitem head "name") ;;
          set_region_name name
        else pass) ;;
       ssh <- input "SSH key name: " ;;
       set_ssh_key_name ssh ;;
       region <- read region_name ;;
       print [JStr "Launching "; JStr type; JStr " in region "; region; JStr "..."] ;;
       launch_response <- launch_with_locals ;;
       success <- eval (getitem launch_response "success") ;;
       if truthy success then
         data <- eval (getitem launch_response "data") ;;
         print [JStr "Launch response:"; data] ;;
         set_continue_loop false ;;
         break
       else
         error <- eval (getitem launch_response "error") ;;
         print [JStr "Error launching instance:"; error] ;;
         set_continue_loop false ;;
         break
     else
       print [JStr "Instance type "; JStr type; JStr " not found. Retrying in 2 seconds..."]
   else pass) ;;
  sleep 2.

Definition polling : M unit := while fuel (fun _ => true) poll_body.

(** The body of [while continue_loop]. *)
Definition launch_body : M unit :=
  region <- read region_name ;;
  (if eq_str region "" then
     set_region_name (JStr "us-south-1") ;;
     set_desired_instance_type "gpu_8x_h100_sxm5" ;;
     launch_response <- launch_with_locals ;;
     stop <- other_error launch_response ;;
     if stop : bool then
       error <- eval (getitem launch_response "error") ;;
       print [JStr "Error launching instance:"; error] ;;
       break
     else pass
   else pass) ;;
  (* Attempt to launch the instance *)
  launch_response <- launch_with_locals ;;
  stop <- other_error launch_response ;;
  (if stop : bool then
     error <- eval (getitem launch_response "error") ;;
     print [JStr "Error launching instance:"; error] ;;
     break
   else
     has_data <- eval (contains "data" launch_response) ;;
     if has_data : bool then
       print [JStr "Instance launched successfully!"] ;;
       data <- eval (getitem launch_response "data") ;;
       print [JStr "Launch response:"; data] ;;
       break
     else pass) ;;
  polling ;;
  continuing <- read continue_loop ;;
  if negb continuing then break else pass.

Definition launch_loop : M unit :=
  set_continue_loop true ;;
  while fuel continue_loop launch_body.

Definition main : M unit :=
  print [JStr "Paste in your Lambda API key."] ;;
  print [JStr "If you do not have an API key you can generate one by clicking "] ;;
  print [JStr "'Generate API key' under 'API keys'in your Lambda Cloud dashboard."] ;;
  api_key_input ;;
  instance_type_selection ;;
  region_selection ;;
  ssh_key_selection ;;
  file_system_selection ;;
  quantity_selection ;;
  launch_loop.

End Script.

(** ** Vocabulary of the properties *)

Definition is_launch (e : Event) : bool :=
  match e with
  | EvHttp (PostLaunch _ _) _ => true
  | _ => false
  end.

(** A capacity poll is a [GET instance-types]. *)
Definition is_poll (e : Event) : bool :=
  match e with
  | EvHttp (GetInstanceTypes _) _ => true
  | _ => false
  end.

(** The bodies of the launch requests of a trace, in order. *)
Definition launches (t : list Event) : list launch_data :=
  flat_map (fun e => match e with
                     | EvHttp (PostLaunch _ data) _ => [data]
                     | _ => []
                     end) t.




(** The run ends normally with the report of a launch error. *)
Definition error_outcome (r : outcome unit * State) : Prop :=
  fst r = Done tt /\
  exists before error,
    trace (snd r) = before ++ [EvPrint [JStr "Error launching instance:"; error]].

(** The request [launch_with_locals] sends, as a function of the locals. *)
Definition launch_of (l : Locals) : request :=
  PostLaunch (api_key l)
    {| d_region_name := region_name l;
       d_instance_type_name := desired_instance_type l;
       d_ssh_key_names := [ssh_key_name l];
       d_file_system_names :=
         match filesystem_name l with
         | Some name => if String.eqb name "" then [] else [name]
         | None => []
         end;
       d_quantity := quantity l |}.

(** *** Invariants of a computation

    [maintains T V XT m]: when the trace satisfies [T] and the locals [V]
    before [m], they do after it, however [m] ends; except that when an
    exchange fails with [t], the trace then satisfies [XT t]. *)
Definition holds (T : list Event -> Prop) (V : Locals -> Prop) (st : State) : Prop :=
  T (trace st) /\ V (vars st).

Definition maintains {A : Type} (T : list Event -> Prop) (V : Locals -> Prop)
    (XT : transport -> list Event -> Prop) (m : M A) : Prop :=
  forall st, holds T V st ->
    match m st with
    | (Raise (Requests t), st') => holds (XT t) V st'
    | (_, st') => holds T V st'
    end.

(** [establishes T V G m]: from a state that satisfies [T] and [V], the
    state [m] ends in satisfies [G]. *)
Definition establishes {A : Type} (T : list Event -> Prop) (V : Locals -> Prop)
    (G : State -> Prop) (m : M A) : Prop :=
  forall st, holds T V st -> G (snd (m st)).

(** [m'] does what [m] does wherever [m] is not cut short by its bound. *)
Definition agrees {A : Type} (m m' : M A) : Prop :=
  forall st, fst (m st) <> OutOfFuel -> m' st = m st.

(** The trace is [t0] followed by events that all satisfy [ok]. *)
Definition extends_with (ok : Event -> Prop) (t0 t : list Event) : Prop :=
  exists ext, t = t0 ++ ext /\ Forall ok ext.

(** An exchange that failed. *)
Definition failed (e : Event) : Prop :=
  exists req t, e = EvHttp req (inl t).

(** The trace is [t0] followed by events without a failed exchange. *)
Definition extends_quietly (t0 t : list Event) : Prop :=
  extends_with (fun e => ~ failed e) t0 t.

(** The trace is [t0], events without a failed exchange, and last an exchange
    that failed with [f]. *)
Definition ends_in_failure (t0 : list Event) (f : transport) (t : list Event) : Prop :=
  exists ext req,
    t = t0 ++ ext ++ [EvHttp req (inl f)] /\ Forall (fun e => ~ failed e) ext.



Definition no_launch (t : list Event) : Prop :=
  Forall (fun e => is_launch e = false) t.




Definition is_print (e : Event) : bool :=
  match e with
  | EvPrint _ => true
  | _ => false
  end.

(** A capacity snapshot that shows [regions], a non-empty value, as the
    regions with capacity for [type]. *)
Definition shows_capacity (type : string) (regions : json) (snapshot : json) : Prop :=
  exists kv types details,
    snapshot = JObj kv /\
    lookup "data" kv = Some (JObj types) /\
    lookup type types = Some (JObj details) /\
    lookup "regions_with_capacity_available" details = Some regions /\
    truthy regions = true.

(** The shape of what the polling loop adds to the trace when it launches:
    events without a launch, the key prompt answered by [line], the
    announcement, the launch request with [line] as its one key, and then
    nothing but prints. *)
Definition keyed_retry (line : string) (ext : list Event) : Prop :=
  exists earlier pieces key data result later,
    ext = earlier ++
          [ EvInput "SSH key name: " line; EvPrint pieces;
            EvHttp (PostLaunch key data) result ] ++ later /\
    no_launch earlier /\
    forallb is_print later = true /\
    d_ssh_key_names data = [line].

(** A launch request that names the region and the instance type of the
    fallback of lines 215-216. *)
Definition fallback_launch (e : Event) : Prop :=
  forall key data result,
    e = EvHttp (PostLaunch key data) result ->
    d_region_name data = JStr "us-south-1" /\
    d_instance_type_name data = "gpu_8x_h100_sxm5".

Definition fallback_locals (l : Locals) : Prop :=
  region_name l = JStr "us-south-1" /\
  desired_instance_type l = "gpu_8x_h100_sxm5".

(** ** Scenarios *)

Definition operator (lines : list string) : nat -> string :=
  fun n => nth n lines "".

Definition server (results : list http_result) : nat -> http_result :=
  fun n => nth n results (inl ConnectionFailed).

Definition capacity_error_body : json :=
  JObj [("error", JObj [("code", JStr insufficient_capacity);
                        ("message", JStr "Not enough capacity to fulfill launch request.")])].

Definition launched_body : json :=
  JObj [("data", JObj [("instance_ids", JArr [JStr "i-123"])])].

Definition region_entry (name : string) : json :=
  JObj [("name", JStr name); ("description", JStr name)].

(** The body of [GET instance-types] with one instance type and the regions
    where it has capacity. *)
Definition snapshot (type : string) (regions : list string) : json :=
  JObj [("data",
         JObj [(type,
                JObj [("instance_type", JObj [("name", JStr type)]);
                      ("regions_with_capacity_available",
                       JArr (map region_entry regions))])])].

Definition ssh_keys_body (names : list string) : json :=
  JObj [("data", JArr (map (fun n => JObj [("id", JStr n); ("name", JStr n)]) names))].

(** The trace from the first launch request on. *)
Fixpoint from_first_launch (t : list Event) : list Event :=
  match t with
  | [] => []
  | e :: rest => if is_launch e then e :: rest else from_first_launch rest
  end.

(** The locals as the prompts leave them for a request without file system. *)
Definition requested (region type ssh q : string) : State :=
  {| vars := {| api_key := "secret"; desired_instance_type := type;
                region_name := JStr region; ssh_key_name := ssh;
                filesystem_name := None; quantity := q;
                continue_loop := false |};
     n_input := 0; n_http := 0; trace := [] |}.

(** The operator asks for gpu_8x_h100_sxm5 and leaves the region empty; the
    launches meet no capacity until a poll shows some in us-west-3. *)
Definition world_empty_region : World :=
  {| stdin := operator ["secret"; "gpu_8x_h100_sxm5"; ""; "good"; "n"; "1"; "good"];
     http := server [inr (snapshot "gpu_8x_h100_sxm5" []);
                     inr (ssh_keys_body ["good"]);
                     inr capacity_error_body;
                     inr capacity_error_body;
                     inr (snapshot "gpu_8x_h100_sxm5" ["us-west-3"; "us-east-1"]);
                     inr launched_body] |}.

(** The operator asks for gpu_1x_a10 and leaves the region empty. *)
Definition world_other_type : World :=
  {| stdin := operator ["secret"; "gpu_1x_a10"; ""; "good"; "n"; "2"];
     http := server [inr (snapshot "gpu_1x_a10" []);
                     inr (ssh_keys_body ["good"]);
                     inr capacity_error_body;
                     inr launched_body] |}.

(** The operator asks for gpu_1x_a10 in us-east-1; the launch meets no
    capacity, the next poll shows some, and the launch that follows gets
    [retry] as its response. *)
Definition world_retry (retry : json) : World :=
  {| stdin := operator ["secret"; "gpu_1x_a10"; "us-east-1"; "good"; "n"; "1"; "good"];
     http := server [inr (snapshot "gpu_1x_a10" []);
                     inr (ssh_keys_body ["good"]);
                     inr capacity_error_body;
                     inr (snapshot "gpu_1x_a10" ["us-east-1"]);
                     inr retry] |}.

(** The first launch times out. *)
Definition world_timeout : World :=
  {| stdin := operator ["secret"; "gpu_1x_a10"; "us-east-1"; "good"; "n"; "1"];
     http := server [inr (snapshot "gpu_1x_a10" []);
                     inr (ssh_keys_body ["good"]);
                     inl Timeout] |}.


(** Seen from the launch loop: the first launch meets no capacity, the second
    one succeeds, and every later exchange is a snapshot without capacity. *)
Definition world_second_launch : World :=
  {| stdin := operator [];
     http := fun n =>
       match n with
       | 0 => inr capacity_error_body
       | 1 => inr launched_body
       | _ => inr (snapshot "gpu_8x_h100_sxm5" [])
       end |}.

(** Seen from the polling loop: capacity shows at once, and the operator
    types a key name that is not the validated one. *)
Definition world_other_key : World :=
  {| stdin := operator ["mistyped"];
     http := server [inr (snapshot "gpu_1x_a10" ["us-east-1"]);
                     inr launched_body] |}.

(** The first launch is refused for a reason other than capacity. *)
Definition invalid_key_error : list (string * json) :=
  [("code", JStr "global/invalid-parameters");
   ("message", JStr "Invalid SSH key.")].

Definition world_invalid_key : World :=
  {| stdin := operator [];
     http := server [inr (JObj [("error", JObj invalid_key_error)])] |}.


(** ** Vocabulary of the further properties *)

(** [name] is the value under [name] of one of the items that a response
    lists under [data]. *)
Definition named (name : json) (body : json) : Prop :=
  exists kv items l item,
    body = JObj kv /\
    lookup "data" kv = Some items /\
    iter items = inr l /\
    In item l /\
    getitem item "name" = inr name.

(** The state once the API key prompt has read a line, asked for the
    instance types with it and reported the key as invalid. *)
Definition key_refused (world : World) (st : State) : State :=
  let key := stdin world (n_input st) in
  {| vars := {| api_key := key;
                desired_instance_type := desired_instance_type (vars st);
                region_name := region_name (vars st);
                ssh_key_name := ssh_key_name (vars st);
                filesystem_name := filesystem_name (vars st);
                quantity := quantity (vars st);
                continue_loop := continue_loop (vars st) |};
     n_input := S (n_input st);
     n_http := S (n_http st);
     trace := trace st ++
       [ EvInput "API key: " key;
         EvHttp (GetInstanceTypes key) (http world (n_http st));
         EvPrint [JStr "API key is invalid or has no permissions."] ] |}.

(** The operator types a key the API refuses, then one it accepts. *)
Definition world_two_keys : World :=
  {| stdin := operator ["wrong"; "secret"];
     http := server [inr (JObj [("error", JObj [("code", JStr "global/invalid-api-key")])]);
                     inr (snapshot "gpu_1x_a10" [])] |}.

(** The operator goes through the prompts asking for a file system. *)
Definition world_file_system : World :=
  {| stdin := operator ["secret"; "gpu_1x_a10"; "us-east-1"; "good"; "Y"; "scratch";
                        "shared"; "1"];
     http := server [inr (snapshot "gpu_1x_a10" []);
                     inr (ssh_keys_body ["good"; "other"]);
                     inr (ssh_keys_body ["shared"]);
                     inr launched_body] |}.

(** [items] are objects and [names] the values they hold under [name], in
    the same order. *)
Definition names_of (items names : list json) : Prop :=
  Forall2 (fun item name =>
             exists kv, item = JObj kv /\ lookup "name" kv = Some name)
          items names.



(** The state once the file system prompt has read an answer and refused
    it. *)
Definition answer_refused (world : World) (st : State) : State :=
  {| vars := vars st;
     n_input := S (n_input st);
     n_http := n_http st;
     trace := trace st ++
       [ EvInput "Would you like to attach a file system? (y/n): "
           (stdin world (n_input st));
         EvPrint [JStr "Invalid input. Please enter 'y' or 'n'."] ] |}.

(** The state once the file system prompt has read the answer no. *)
Definition answered_no (world : World) (st : State) : State :=
  {| vars := {| api_key := api_key (vars st);
                desired_instance_type := desired_instance_type (vars st);
                region_name := region_name (vars st);
                ssh_key_name := ssh_key_name (vars st);
                filesystem_name := None;
                quantity := quantity (vars st);
                continue_loop := continue_loop (vars st) |};
     n_input := S (n_input st);
     n_http := n_http st;
     trace := trace st ++
       [ EvInput "Would you like to attach a file system? (y/n): "
           (stdin world (n_input st)) ] |}.

(** The locals with another SSH key. *)
Definition with_ssh_key (l : Locals) (ssh : string) : Locals :=
  {| api_key := api_key l;
     desired_instance_type := desired_instance_type l;
     region_name := region_name l;
     ssh_key_name := ssh;
     filesystem_name := filesystem_name l;
     quantity := quantity l;
     continue_loop := continue_loop l |}.

(** The locals with the region and the instance type of the fallback. *)
Definition with_fallback (l : Locals) : Locals :=
  {| api_key := api_key l;
     desired_instance_type := "gpu_8x_h100_sxm5";
     region_name := JStr "us-south-1";
     ssh_key_name := ssh_key_name l;
     filesystem_name := filesystem_name l;
     quantity := quantity l;
     continue_loop := continue_loop l |}.

(** A launch request is the one the locals [l] give, but for the SSH key. *)
Definition same_request (l : Locals) (e : Event) : Prop :=
  forall key data result,
    e = EvHttp (PostLaunch key data) result ->
    exists ssh, PostLaunch key data = launch_of (with_ssh_key l ssh).

(** The locals agree with [l] on all that a launch request carries but the
    SSH key, and the region is not empty. *)
Definition request_kept (l0 l : Locals) : Prop :=
  eq_str (region_name l) "" = false /\
  api_key l = api_key l0 /\
  region_name l = region_name l0 /\
  desired_instance_type l = desired_instance_type l0 /\
  filesystem_name l = filesystem_name l0 /\
  quantity l = quantity l0.

(** Seen from the launch loop with an empty region: both launches succeed. *)
Definition world_two_successes : World :=
  {| stdin := operator [];
     http := server [inr launched_body;
                     inr (JObj [("data", JObj [("instance_ids", JArr [JStr "i-456"])])])] |}.

Definition no_poll (t : list Event) : Prop :=
  Forall (fun e => is_poll e = false) t.

(** Every capacity poll but a first one comes right after a sleep of two
    seconds. *)
Definition paced (ext : list Event) : Prop :=
  forall before after key result,
    ext = before ++ EvHttp (GetInstanceTypes key) result :: after ->
    before = [] \/ exists earlier, before = earlier ++ [EvSleep 2].

(** Seen from the launch loop: no capacity at the first launch, some at the
    second poll, and an operator who types another key name. *)
Definition world_retry_loop : World :=
  {| stdin := operator ["mistyped"];
     http := server [inr capacity_error_body;
                     inr (snapshot "gpu_1x_a10" []);
                     inr (snapshot "gpu_1x_a10" ["us-east-1"]);
                     inr launched_body] |}.

(** Every launch request of the trace names an instance type of the static
    catalog. *)
Definition launches_listed (t : list Event) : Prop :=
  Forall (fun e => forall key data result,
            e = EvHttp (PostLaunch key data) result ->
            In (d_instance_type_name data) get_instance_types) t.

(** ** The GPU test ([pytorch_gpu_test.py])

    The script asks nvidia-smi and PyTorch for the number of GPUs and, when
    they agree, runs a computation on each device.  What the driver and the
    library answer is given by a [Machine]; what the computation computes is
    never looked at by the script and is not modelled. *)

Module GpuTest.

(** Whitespace as [str.strip] sees it, for code points below 256. *)
Definition is_space (c : ascii) : bool :=
  let n := nat_of_ascii c in
  ((9 <=? n) && (n <=? 13) || (28 <=? n) && (n <=? 32) || (n =? 133) || (n =? 160))%nat.

Fixpoint lstrip (s : string) : string :=
  match s with
  | EmptyString => EmptyString
  | String c s' => if is_space c then lstrip s' else s
  end.

Fixpoint rstrip (s : string) : string :=
  match s with
  | EmptyString => EmptyString
  | String c s' =>
      match rstrip s' with
      | EmptyString => if is_space c then EmptyString else String c EmptyString
      | String c' r => String c (String c' r)
      end
  end.

(** [s.strip()] *)
Definition strip (s : string) : string := rstrip (lstrip s).

(** [s.split("\n")] *)
Fixpoint split_lines (s : string) : list string :=
  match s with
  | EmptyString => [EmptyString]
  | String c s' =>
      if (nat_of_ascii c =? 10)%nat then EmptyString :: split_lines s'
      else
        match split_lines s' with
        | line :: rest => String c line :: rest
        | [] => [String c EmptyString]
        end
  end.

(** What the script gets from outside.  An exception is kept as its
    message. *)
Record Machine : Type := {
  (* subprocess.run(["nvidia-smi", "-L"], ...) and the decoding of its
     output: the text, or the exception either of them raised *)
  nvidia_smi : string + string;
  (* torch.cuda.device_count() *)
  device_count : nat;
  (* torch.cuda.get_device_name(i) *)
  device_name : nat -> string + string;
  (* entering the device and the computation on it: the exception raised *)
  work : nat -> option string;
  (* torch.cuda.synchronize() on the device: the exception raised *)
  synchronize : nat -> option string
}.

Inductive piece : Type :=
| Text (s : string)
| Num (n : nat)
| Exc (message : string).

Inductive Event : Type :=
| Printed (pieces : list piece)
| RunSmi
| DeviceCount
| DeviceName (i : nat)
| Work (i : nat)
| Synchronize (i : nat).

(** How a piece of the script ends. *)
Inductive ending : Type :=
| Finished               (* fell through its last statement *)
| Returned               (* a [return] *)
| Raised (message : string).

Definition get_gpu_count (m : Machine) : list Event * nat :=
  match nvidia_smi m with
  | inr output =>
      let gpu_count := length (split_lines (strip output)) in
      ([RunSmi], gpu_count)
  | inl e =>
      ([RunSmi; Printed [Text "Error occurred while getting GPU count:"; Exc e]], 0)
  end.

(** The loop [for i in range(cuda_device_count)], on the devices left. *)
Fixpoint test_devices (m : Machine) (devices : list nat) : list Event * ending :=
  match devices with
  | [] => ([], Finished)
  | i :: rest =>
      match device_name m i with
      | inl e => ([DeviceName i], Raised e)
      | inr name =>
          let shown :=
            [DeviceName i; Printed [Text "Using GPU "; Num i; Text ": "; Text name]] in
          match work m i with
          | Some e => (shown ++ [Work i], Raised e)
          | None =>
              match synchronize m i with
              | Some e =>
                  (shown ++
                   [ Work i; Synchronize i;
                     Printed [Text "Error occurred while utilizing GPU "; Num i;
                            Text ": "; Exc e];
                     Printed [Text "GPU "; Num i;
                            Text " is not being utilized correctly."] ],
                   Returned)
              | None =>
                  let (t, r) := test_devices m rest in
                  (shown ++ [Work i; Synchronize i] ++ t, r)
              end
          end
      end
  end.

Definition main (m : Machine) : list Event * ending :=
  let (t0, global_device_count) := get_gpu_count m in
  let cuda_device_count := device_count m in
  let counted :=
    t0 ++
    [ Printed [Text "Number of available GPUs: "; Num global_device_count];
      DeviceCount;
      Printed [Text "Number of available GPUs being used by PyTorch: ";
             Num cuda_device_count] ] in
  if (global_device_count =? 0)%nat then
    (counted ++
     [Printed [Text "No GPUs available. Make sure NVIDIA drivers are properly installed."]],
     Returned)
  else if negb (global_device_count =? cuda_device_count)%nat then
    (counted ++ [Printed [Text "Not all GPUs are being utilized by PyTorch."]], Returned)
  else
    let (t, r) := test_devices m (seq 0 cuda_device_count) in
    match r with
    | Finished =>
        (counted ++ [Printed [Text "Testing GPU utilization..."]] ++ t ++
         [Printed [Text "All GPUs are utilized."]],
         Finished)
    | _ => (counted ++ [Printed [Text "Testing GPU utilization..."]] ++ t, r)
    end.

(** The number of line feeds of a text. *)
Fixpoint newlines (s : string) : nat :=
  match s with
  | EmptyString => 0
  | String c s' => (if (nat_of_ascii c =? 10)%nat then 1 else 0) + newlines s'
  end.

(** The device [i] gives its name, takes the computation and synchronizes. *)
Definition sound (m : Machine) (i : nat) : Prop :=
  (exists name, device_name m i = inr name) /\
  work m i = None /\
  synchronize m i = None.

(** A machine with two GPUs, both fine. *)
Definition two_gpus : Machine :=
  {| nvidia_smi := inr "GPU 0: NVIDIA A10 (UUID: GPU-0)
GPU 1: NVIDIA A10 (UUID: GPU-1)
";
     device_count := 2;
     device_name := fun _ => inr "NVIDIA A10";
     work := fun _ => None;
     synchronize := fun _ => None |}.

(** A machine on which nvidia-smi prints nothing and PyTorch sees no GPU. *)
Definition silent_smi : Machine :=
  {| nvidia_smi := inr "";
     device_count := 0;
     device_name := fun _ => inl "invalid device";
     work := fun _ => None;
     synchronize := fun _ => None |}.

(** A machine without nvidia-smi. *)
Definition no_smi : Machine :=
  {| nvidia_smi := inl "[Errno 2] No such file or directory: 'nvidia-smi'";
     device_count := 0;
     device_name := fun _ => inl "invalid device";
     work := fun _ => None;
     synchronize := fun _ => None |}.

(** A machine with three GPUs, the second of which fails to synchronize. *)
Definition second_gpu_fails : Machine :=
  {| nvidia_smi := inr "GPU 0: A
GPU 1: B
GPU 2: C";
     device_count := 3;
     device_name := fun _ => inr "NVIDIA A10";
     work := fun _ => None;
     synchronize := fun i => match i with 1 => Some "CUDA error" | _ => None end |}.

End GpuTest.

(** * Properties *)

(** ** Running the script by hand *)

Lemma while_S (n : nat) (cond : Locals -> bool) (body : M unit) (st : State) :
  while (S n) cond body st =
    if cond (vars st) then
      match body st with
      | (Done _, st') => while n cond body st'
      | (Break, st') => (Done tt, st')
      | (Raise e, st') => (Raise e, st')
      | (OutOfFuel, st') => (OutOfFuel, st')
      end
    else (Done tt, st).
Proof. reflexivity. Qed.

(** Unfolds the operations of the monad and the helpers of the script, down
    to the next value that depends on the outside world. *)
Ltac run :=
  cbv beta iota zeta delta
    [bind ret read assign emit eval raise break pass print sleep input exchange
     set_api_key set_desired_instance_type set_region_name set_ssh_key_name
     set_filesystem_name set_quantity set_continue_loop
     launch_with_locals launch_instance other_error get_available_instances
     contains getitem get first keys iter];
  cbn [vars n_input n_http trace api_key desired_instance_type region_name
       ssh_key_name filesystem_name quantity continue_loop fst snd].

(** The same, leaving the operations on decoded values folded. *)
Ltac exec :=
  cbv beta iota zeta delta
    [bind ret read assign emit eval raise break pass print sleep input exchange
     set_api_key set_desired_instance_type set_region_name set_ssh_key_name
     set_filesystem_name set_quantity set_continue_loop
     launch_with_locals launch_instance get_available_instances];
  cbn [vars n_input n_http trace api_key desired_instance_type region_name
       ssh_key_name filesystem_name quantity continue_loop fst snd].

(** Case analysis on the next value that decides where the script goes. *)
Ltac split_next :=
  match goal with
  | |- context [match http ?w ?n with _ => _ end] => destruct (http w n) as [?|?]
  | |- context [match get ?a ?b ?c with _ => _ end] => destruct (get a b c) as [?|?]
  | |- context [match getitem ?a ?b with _ => _ end] => destruct (getitem a b) as [?|?]
  | |- context [match first ?a with _ => _ end] => destruct (first a) as [?|?]
  | |- context [if truthy ?v then _ else _] => destruct (truthy v)
  | |- context [if eq_str ?v ?s then _ else _] => destruct (eq_str v s)
  end; exec.

(** ** Invariants: the rules *)

Section Rules.

Variable T : list Event -> Prop.
Variable V : Locals -> Prop.
Variable XT : transport -> list Event -> Prop.

Lemma maintains_ret {A : Type} (a : A) : maintains T V XT (ret a).
Proof. intros st H. exact H. Qed.

Lemma maintains_break {A : Type} : maintains T V XT (@break A).
Proof. intros st H. exact H. Qed.

Lemma maintains_eval {A : Type} (r : res A) : maintains T V XT (eval r).
Proof. intros st H. destruct r; exact H. Qed.

Lemma maintains_read {A : Type} (f : Locals -> A) : maintains T V XT (read f).
Proof. intros st H. exact H. Qed.

Lemma maintains_bind {A B : Type} (m : M A) (k : A -> M B) :
  maintains T V XT m -> (forall a, maintains T V XT (k a)) ->
  maintains T V XT (bind m k).
Proof.
  intros Hm Hk st H. unfold bind. specialize (Hm st H).
  destruct (m st) as [[a| |e|] st']; try exact Hm.
  apply Hk, Hm.
Qed.

(** A value read from the locals may be used with what [V] says of them. *)
Lemma maintains_bind_read {A B : Type} (f : Locals -> A) (k : A -> M B) :
  (forall l, V l -> maintains T V XT (k (f l))) ->
  maintains T V XT (bind (read f) k).
Proof.
  intros Hk st H. unfold bind, read. apply (Hk (vars st)); [apply H | exact H].
Qed.

Lemma maintains_while (n : nat) (cond : Locals -> bool) (body : M unit) :
  maintains T V XT body -> maintains T V XT (while n cond body).
Proof.
  intros Hb. induction n as [|n IH]; intros st H; simpl.
  - exact H.
  - destruct (cond (vars st)); [|exact H].
    specialize (Hb st H).
    destruct (body st) as [[[]| |e|] st']; try exact Hb.
    apply IH, Hb.
Qed.

Lemma maintains_assign (f : Locals -> Locals) :
  (forall l, V l -> V (f l)) -> maintains T V XT (assign f).
Proof. intros Hf st [Ht Hv]. split; simpl; auto. Qed.

Lemma maintains_emit (e : Event) :
  (forall t, T t -> T (t ++ [e])) -> maintains T V XT (emit e).
Proof. intros He st [Ht Hv]. split; simpl; auto. Qed.

Lemma maintains_input (world : World) (prompt : string) :
  (forall t line, T t -> T (t ++ [EvInput prompt line])) ->
  maintains T V XT (input world prompt).
Proof. intros He st [Ht Hv]. split; simpl; auto. Qed.

Lemma maintains_exchange (world : World) (req : request) :
  (forall t body, T t -> T (t ++ [EvHttp req (inr body)])) ->
  (forall t f, T t -> XT f (t ++ [EvHttp req (inl f)])) ->
  maintains T V XT (exchange world req).
Proof.
  intros Hok Hfail st [Ht Hv]. unfold exchange.
  destruct (http world (n_http st)) as [f|body]; split; simpl; auto.
Qed.

Lemma launch_with_locals_eq (world : World) (st : State) :
  launch_with_locals world st = exchange world (launch_of (vars st)) st.
Proof. reflexivity. Qed.

Lemma maintains_launch (world : World) :
  (forall l t body, V l -> T t -> T (t ++ [EvHttp (launch_of l) (inr body)])) ->
  (forall l t f, V l -> T t -> XT f (t ++ [EvHttp (launch_of l) (inl f)])) ->
  maintains T V XT (launch_with_locals world).
Proof.
  intros Hok Hfail st [Ht Hv]. rewrite launch_with_locals_eq. unfold exchange.
  destruct (http world (n_http st)) as [f|body]; split; simpl; auto.
Qed.

Lemma establishes_bind {A B : Type} (G : State -> Prop) (m : M A) (k : A -> M B) :
  maintains T V XT m ->
  (forall st, holds T V st -> G st) ->
  (forall t st, holds (XT t) V st -> G st) ->
  (forall a, establishes T V G (k a)) ->
  establishes T V G (bind m k).
Proof.
  intros Hm HG HX Hk st H. unfold bind. specialize (Hm st H).
  destruct (m st) as [[a| |e|] st']; simpl; auto.
  - apply Hk, Hm.
  - destruct e; eauto.
Qed.

End Rules.

Create HintDb script.
#[local] Hint Unfold print sleep pass set_api_key set_desired_instance_type
  set_region_name set_ssh_key_name set_filesystem_name set_quantity
  set_continue_loop get_available_instances get_ssh_keys get_file_systems
  get_valid_instance_types other_error api_key_input instance_type_selection
  region_selection ssh_key_selection file_system_selection quantity_selection
  poll_body polling launch_body launch_loop : script.

(** Goes through a computation by its structure; [side] closes what the
    rules ask of the invariant at hand. *)
Ltac maintain side :=
  repeat first
    [ apply maintains_ret
    | apply maintains_break
    | apply maintains_eval
    | apply maintains_read
    | apply maintains_launch; side
    | apply maintains_assign; side
    | apply maintains_emit; side
    | apply maintains_input; side
    | apply maintains_exchange; side
    | apply maintains_while
    | apply maintains_bind; [| intros ?]
    | match goal with
      | |- maintains _ _ _ (if ?b then _ else _) => destruct b
      | |- maintains _ _ _ (match ?x with _ => _ end) => destruct x
      end
    | progress cbv beta zeta
    | progress autounfold with script ].

(** ** The bound on the loops

    A run that ends within the bound is the run of the script: a larger
    bound changes nothing. *)

Lemma agrees_refl {A : Type} (m : M A) : agrees m m.
Proof. intros st _. reflexivity. Qed.

Lemma agrees_bind {A B : Type} (m m' : M A) (k k' : A -> M B) :
  agrees m m' -> (forall a, agrees (k a) (k' a)) ->
  agrees (bind m k) (bind m' k').
Proof.
  intros Hm Hk st H. unfold bind in *.
  destruct (m st) as [[a| |e|] st1] eqn:Hrun.
  - rewrite (Hm st) by (rewrite Hrun; discriminate). rewrite Hrun.
    now apply Hk.
  - rewrite (Hm st) by (rewrite Hrun; discriminate). now rewrite Hrun.
  - rewrite (Hm st) by (rewrite Hrun; discriminate). now rewrite Hrun.
  - now elim H.
Qed.

Lemma agrees_while (n n' : nat) (cond : Locals -> bool) (body body' : M unit) :
  n <= n' -> agrees body body' ->
  agrees (while n cond body) (while n' cond body').
Proof.
  intros Hle Hbody. revert n' Hle.
  induction n as [|n IH]; intros n' Hle st H.
  - now elim H.
  - destruct n' as [|n']; [lia|]. rewrite !while_S in *.
    destruct (cond (vars st)); [|reflexivity].
    destruct (body st) as [[[]| |e|] st1] eqn:Hrun.
    + rewrite (Hbody st) by (rewrite Hrun; discriminate). rewrite Hrun.
      apply IH; [lia | exact H].
    + rewrite (Hbody st) by (rewrite Hrun; discriminate). now rewrite Hrun.
    + rewrite (Hbody st) by (rewrite Hrun; discriminate). now rewrite Hrun.
    + now elim H.
Qed.

Ltac agree Hle :=
  repeat first
    [ apply agrees_refl
    | apply agrees_while; [exact Hle|]
    | apply agrees_bind; [| intros ?]
    | match goal with
      | |- agrees (if ?b then _ else _) _ => destruct b
      | |- agrees (match ?x with _ => _ end) _ => destruct x
      end
    | progress cbv beta zeta
    | progress autounfold with script ].

Lemma launch_loop_bound (world : World) (n n' : nat) :
  n <= n' -> agrees (launch_loop world n) (launch_loop world n').
Proof. intros Hle. agree Hle. Qed.

Lemma main_bound (world : World) (n n' : nat) :
  n <= n' -> agrees (main world n) (main world n').
Proof. intros Hle. unfold main. agree Hle. Qed.

(** ** The static catalog *)

Lemma lookup_not_in {V : Type} (k : string) (kv : list (string * V)) :
  ~ In k (map fst kv) -> lookup k kv = None.
Proof.
  induction kv as [|[k' v] rest IH]; simpl; intros H.
  - reflexivity.
  - destruct (String.eqb_spec k k') as [->|_].
    + exfalso. apply H. now left.
    + apply IH. intros Hin. apply H. now right.
Qed.

(** C8. For every instance type that is not a key of the static catalog,
    [get_regions_for_instance_type] returns its not-found message.  The
    function is a total function of its argument alone: it cannot raise and
    has no access to the outside world. *)
Theorem unknown_instance_type_not_found (instance_type : string) :
  ~ In instance_type get_instance_types ->
  get_regions_for_instance_type instance_type = Message "Instance type not found".
Proof.
  intros H. unfold get_regions_for_instance_type.
  rewrite (lookup_not_in _ _ H). reflexivity.
Qed.

Lemma unknown_instance_type_not_found_witness :
  get_regions_for_instance_type "gpu_3x_tpu" = Message "Instance type not found".
Proof.
  apply (unknown_instance_type_not_found "gpu_3x_tpu").
  simpl. intuition discriminate.
Defined.

(** ** The quantity *)

(** A loop whose condition is constantly true ends normally only through a
    [break] of its body. *)
Lemma while_true_done (n : nat) (body : M unit) (st st' : State) :
  while n (fun _ => true) body st = (Done tt, st') ->
  exists st0, body st0 = (Break, st').
Proof.
  revert st. induction n as [|n IH]; intros st H; simpl in H.
  - discriminate.
  - destruct (body st) as [[[]| |e|] st1] eqn:Hb.
    + now apply (IH st1).
    + injection H as <-. now exists st.
    + discriminate.
    + discriminate.
Qed.

Lemma no_launch_snoc (t : list Event) (e : Event) :
  is_launch e = false -> no_launch t -> no_launch (t ++ [e]).
Proof. intros He Ht. apply Forall_app. split; [exact Ht | now constructor]. Qed.

Ltac no_launch_side :=
  intros; first [ exact I | apply no_launch_snoc; [reflexivity | assumption] ].













(** A superscript two passes [isdigit] and is refused by [int]: the prompt
    ends the run with [ValueError], before any launch. *)
Example superscript_quantity_raises :
  let world := {| stdin := fun _ => String (ascii_of_nat 178) EmptyString;
                  http := server [] |} in
  quantity_selection world 3 initial =
    (Raise (Builtin ValueError),
     {| vars := {| api_key := ""; desired_instance_type := ""; region_name := JNull;
                   ssh_key_name := ""; filesystem_name := None;
                   quantity := String (ascii_of_nat 178) EmptyString;
                   continue_loop := false |};
        n_input := 1; n_http := 0;
        trace := [EvInput "Enter the number of instances you would like to launch (1-9): "
                    (String (ascii_of_nat 178) EmptyString)] |}).
Proof. vm_compute. reflexivity. Qed.

(** ** The first launch *)

Lemma eq_str_true (v : json) (s : string) : eq_str v s = true <-> v = JStr s.
Proof.
  destruct v; simpl; try (split; [discriminate | intros H; discriminate H]).
  rewrite String.eqb_eq. split; [now intros -> | now intros [= ->]].
Qed.

Lemma eq_str_false (v : json) (s : string) : eq_str v s = false <-> v <> JStr s.
Proof.
  rewrite <- eq_str_true. destruct (eq_str v s); split; congruence.
Qed.

(** C2.  When the first launch returns an error whose code is not the
    insufficient-capacity code, the launch loop ends normally after that one
    exchange: it prints the error and stops, with no capacity poll (nor any
    other exchange). *)
Theorem other_error_ends_run (world : World) (fuel : nat) (st : State)
    (kv err : list (string * json)) :
  http world (n_http st) = inr (JObj kv) ->
  lookup "error" kv = Some (JObj err) ->
  lookup "code" err <> Some (JStr insufficient_capacity) ->
  exists data st',
    launch_loop world (S fuel) st = (Done tt, st') /\
    trace st' = trace st ++
      [ EvHttp (PostLaunch (api_key (vars st)) data) (inr (JObj kv));
        EvPrint [JStr "Error launching instance:"; JObj err] ] /\
    n_http st' = S (n_http st).
Proof.
  intros Hhttp Herror Hcode.
  assert (Hstop : negb (eq_str (match lookup "code" err with
                                | Some x => x | None => JNull end)
                          insufficient_capacity) = true).
  { apply negb_true_iff, eq_str_false.
    destruct (lookup "code" err); [congruence | discriminate]. }
  unfold launch_loop, launch_body. run. rewrite while_S. run.
  destruct (eq_str (region_name (vars st)) "") eqn:Hregion; run;
    rewrite Hhttp; run; rewrite Herror; run; rewrite Hstop; run;
    eexists _, _; (split; [reflexivity|]); run;
    (split; [rewrite <- app_assoc; reflexivity | reflexivity]).
Qed.

Lemma other_error_ends_run_witness :
  exists data st',
    launch_loop world_invalid_key 1 (requested "us-east-1" "gpu_1x_a10" "good" "1") =
      (Done tt, st') /\
    trace st' =
      [ EvHttp (PostLaunch "secret" data) (inr (JObj [("error", JObj invalid_key_error)]));
        EvPrint [JStr "Error launching instance:"; JObj invalid_key_error] ] /\
    n_http st' = 1.
Proof.
  apply (other_error_ends_run world_invalid_key 0
           (requested "us-east-1" "gpu_1x_a10" "good" "1")
           [("error", JObj invalid_key_error)] invalid_key_error).
  - reflexivity.
  - reflexivity.
  - discriminate.
Defined.

(** ** Transport failures *)

Lemma not_failed_input (prompt line : string) : ~ failed (EvInput prompt line).
Proof. intros (req & t & H). discriminate. Qed.

Lemma not_failed_print (pieces : list json) : ~ failed (EvPrint pieces).
Proof. intros (req & t & H). discriminate. Qed.

Lemma not_failed_sleep (seconds : Z) : ~ failed (EvSleep seconds).
Proof. intros (req & t & H). discriminate. Qed.

Lemma not_failed_body (req : request) (body : json) : ~ failed (EvHttp req (inr body)).
Proof. intros (req' & t & H). discriminate. Qed.

Lemma extends_with_snoc (ok : Event -> Prop) (t0 t : list Event) (e : Event) :
  ok e -> extends_with ok t0 t -> extends_with ok t0 (t ++ [e]).
Proof.
  intros He (ext & -> & Hq). exists (ext ++ [e]). split.
  - now rewrite app_assoc.
  - apply Forall_app. split; [exact Hq | now constructor].
Qed.

Lemma extends_quietly_snoc (t0 t : list Event) (e : Event) :
  ~ failed e -> extends_quietly t0 t -> extends_quietly t0 (t ++ [e]).
Proof. exact (extends_with_snoc (fun x => ~ failed x) t0 t e). Qed.

Lemma ends_in_failure_snoc (t0 t : list Event) (req : request) (f : transport) :
  extends_quietly t0 t -> ends_in_failure t0 f (t ++ [EvHttp req (inl f)]).
Proof.
  intros (ext & -> & Hq). exists ext, req. split; [|exact Hq].
  now rewrite <- app_assoc.
Qed.

Ltac quiet_side :=
  intros;
  first [ exact I
        | apply ends_in_failure_snoc; assumption
        | apply extends_quietly_snoc;
          [ first [ apply not_failed_input | apply not_failed_print
                  | apply not_failed_sleep | apply not_failed_body ]
          | assumption ] ].

Lemma launch_loop_fails_fast (world : World) (fuel : nat) (t0 : list Event) :
  maintains (extends_quietly t0) (fun _ => True) (ends_in_failure t0)
    (launch_loop world fuel).
Proof. maintain quiet_side. Qed.

Lemma main_fails_fast (world : World) (fuel : nat) (t0 : list Event) :
  maintains (extends_quietly t0) (fun _ => True) (ends_in_failure t0)
    (main world fuel).
Proof. unfold main. maintain quiet_side. Qed.

Lemma failed_event_is_last (before after ext : list Event) (e e' : Event) :
  before ++ e :: after = ext ++ [e'] ->
  failed e -> Forall (fun x => ~ failed x) ext ->
  after = [] /\ e = e'.
Proof.
  revert before. induction ext as [|x ext IH]; intros before Heq He Hq.
  - destruct before as [|b before]; simpl in Heq.
    + injection Heq as -> ->. now split.
    + injection Heq as _ Heq. destruct before; discriminate.
  - inversion Hq as [|? ? Hx Hq']; subst.
    destruct before as [|b before]; simpl in Heq; injection Heq as -> Heq.
    + contradiction.
    + now apply (IH before).
Qed.

Lemma fails_fast_run (m : M unit) (st : State) :
  maintains (extends_quietly (trace st)) (fun _ => True)
    (ends_in_failure (trace st)) m ->
  forall req f before after,
    trace (snd (m st)) = trace st ++ before ++ EvHttp req (inl f) :: after ->
    fst (m st) = Raise (Requests f) /\ after = [].
Proof.
  intros Hm req f before after Htrace.
  assert (Hst : holds (extends_quietly (trace st)) (fun _ => True) st).
  { split; [|exact I]. exists []. split; [now rewrite app_nil_r | constructor]. }
  specialize (Hm st Hst).
  assert (Hfailed : failed (EvHttp req (inl f))) by (now exists req, f).
  assert (Hquiet : ~ extends_quietly (trace st) (trace (snd (m st)))).
  { intros (ext & Hext & Hq). rewrite Htrace in Hext.
    apply app_inv_head in Hext. subst ext.
    apply Forall_app in Hq as [_ Hq]. inversion Hq; contradiction. }
  destruct (m st) as [[[]| |[e|t]|] st']; simpl in *;
    try (exfalso; apply Hquiet, Hm).
  destruct Hm as [(ext & req' & Hext & Hq) _].
  rewrite Htrace in Hext. apply app_inv_head in Hext.
  destruct (failed_event_is_last _ _ _ _ _ Hext Hfailed Hq) as [-> Hev].
  injection Hev as _ ->. now split.
Qed.

(** Any exchange of the launch loop that fails ends the loop with the
    exception it raised, whatever the state the loop starts from. *)
Lemma launch_loop_transport_failure (world : World) (fuel : nat) (st : State)
    (req : request) (f : transport) (before after : list Event) :
  trace (snd (launch_loop world fuel st)) =
    trace st ++ before ++ EvHttp req (inl f) :: after ->
  fst (launch_loop world fuel st) = Raise (Requests f) /\ after = [].
Proof. apply fails_fast_run, launch_loop_fails_fast. Qed.

(** C6, as the script has it.  A failed exchange (a timeout, a failed
    connection, a body that is not JSON) is not turned into an error outcome:
    the exception it raises is caught nowhere, so it ends the whole run, and
    the failed exchange is the last thing the script has done. *)
Theorem transport_failure_escapes (world : World) (fuel : nat)
    (req : request) (f : transport) (before after : list Event) :
  trace (snd (main world fuel initial)) = before ++ EvHttp req (inl f) :: after ->
  fst (main world fuel initial) = Raise (Requests f) /\ after = [].
Proof.
  intros H. apply (fails_fast_run (main world fuel) initial (main_fails_fast _ _ _)
                     req f before after).
  exact H.
Qed.

Lemma transport_failure_escapes_witness :
  fst (main world_timeout 3 initial) = Raise (Requests Timeout).
Proof.
  apply (transport_failure_escapes world_timeout 3
           (PostLaunch "secret"
              {| d_region_name := JStr "us-east-1"; d_instance_type_name := "gpu_1x_a10";
                 d_ssh_key_names := ["good"]; d_file_system_names := [];
                 d_quantity := "1" |})
           Timeout
           (removelast (trace (snd (main world_timeout 3 initial))))
           []).
  vm_compute. reflexivity.
Defined.

(** C6, at a run that contradicts it as stated: the first launch times out,
    and the run ends with the exception instead of reporting an error. *)
Lemma timeout_is_not_an_error_outcome :
  let r := main world_timeout 3 initial in
  (exists req, last (trace (snd r)) (EvSleep 0) = EvHttp req (inl Timeout)) /\
  fst r = Raise (Requests Timeout) /\
  ~ error_outcome r.
Proof.
  split; [|split].
  - eexists. vm_compute. reflexivity.
  - vm_compute. reflexivity.
  - intros [H _]. vm_compute in H. discriminate.
Qed.

(** ** Polling without capacity *)







(** ** The launch issued from the polling loop *)

Lemma keyed_retry_intro (e0 : Event) (line : string) (pieces : list json)
    (key : string) (data : launch_data) (result : http_result) (later : list Event) :
  is_launch e0 = false ->
  forallb is_print later = true ->
  d_ssh_key_names data = [line] ->
  keyed_retry line
    (e0 :: EvInput "SSH key name: " line :: EvPrint pieces ::
     EvHttp (PostLaunch key data) result :: later).
Proof.
  intros H0 Hlater Hkey. exists [e0], pieces, key, data, result, later.
  repeat split; auto. now repeat constructor.
Qed.

(** Brings the trace of a state reached by running to the form
    [trace st ++ [e1; ...; en]]. *)
Ltac flatten_trace := rewrite <- ?app_assoc; cbn [app].

(** One pass through the polling loop either issues no launch and reads no
    line, or it prompts for a key, launches with the line typed and then
    leaves the loop. *)
Lemma poll_body_shape (world : World) (st : State) :
  exists ext,
    trace (snd (poll_body world st)) = trace st ++ ext /\
    ((no_launch ext /\ n_input (snd (poll_body world st)) = n_input st) \/
     (keyed_retry (stdin world (n_input st)) ext /\
      (fst (poll_body world st) = Break \/
       exists e, fst (poll_body world st) = Raise e))).
Proof.
  unfold poll_body. exec. repeat split_next.
  all: flatten_trace; eexists; (split; [reflexivity|]).
  all: first
    [ left; split; [solve [repeat constructor] | reflexivity]
    | right; split;
      [ apply keyed_retry_intro; reflexivity
      | first [left; reflexivity | right; eexists; reflexivity] ] ].
Qed.

Lemma no_launch_app (t1 t2 : list Event) :
  no_launch t1 -> no_launch t2 -> no_launch (t1 ++ t2).
Proof. intros H1 H2. apply Forall_app. now split. Qed.

Lemma keyed_retry_after (line : string) (quiet ext : list Event) :
  no_launch quiet -> keyed_retry line ext -> keyed_retry line (quiet ++ ext).
Proof.
  intros Hq (earlier & pieces & key & data & result & later & -> & He & Hl & Hk).
  exists (quiet ++ earlier), pieces, key, data, result, later.
  repeat split; auto.
  - now rewrite app_assoc.
  - now apply no_launch_app.
Qed.

(** What the polling loop adds to the trace: no launch at all, or one launch
    with the key typed at the prompt, after which the loop has ended. *)
Lemma polling_shape (world : World) (fuel : nat) :
  forall st, exists ext,
    trace (snd (polling world fuel st)) = trace st ++ ext /\
    (no_launch ext \/
     (keyed_retry (stdin world (n_input st)) ext /\
      fst (polling world fuel st) <> OutOfFuel)).
Proof.
  unfold polling. induction fuel as [|fuel IH]; intros st.
  - exists []. split; [now rewrite app_nil_r | left; constructor].
  - rewrite while_S. cbv beta iota.
    destruct (poll_body_shape world st) as (ext & Htrace & Hshape).
    destruct (poll_body world st) as [[[]| |e|] st1] eqn:Hbody; simpl in Htrace, Hshape.
    + destruct Hshape as [[Hquiet Hinput] | [_ [Hbreak | [e He]]]]; try discriminate.
      destruct (IH st1) as (ext' & Htrace' & Hshape').
      exists (ext ++ ext'). split.
      * now rewrite Htrace', Htrace, app_assoc.
      * destruct Hshape' as [Hquiet' | [Hretry Hfuel]].
        -- left. now apply no_launch_app.
        -- right. rewrite <- Hinput. split; [|exact Hfuel].
           now apply keyed_retry_after.
    + exists ext. split; [exact Htrace|].
      destruct Hshape as [[Hquiet _] | [Hretry _]]; [now left | right].
      split; [exact Hretry | discriminate].
    + exists ext. split; [exact Htrace|].
      destruct Hshape as [[Hquiet _] | [Hretry _]]; [now left | right].
      split; [exact Hretry | discriminate].
    + exists ext. split; [exact Htrace|].
      destruct Hshape as [[Hquiet _] | [_ [Hbreak | [e He]]]]; try discriminate.
      now left.
Qed.

Lemma launch_position (before after earlier later : list Event) (e e' : Event) :
  before ++ e :: after = earlier ++ e' :: later ->
  is_launch e = true -> no_launch earlier -> no_launch later ->
  before = earlier /\ e = e' /\ after = later.
Proof.
  revert before. induction earlier as [|x earlier IH]; intros before Heq He Hq Hl.
  - destruct before as [|b before]; simpl in Heq.
    + injection Heq as -> ->. now repeat split.
    + injection Heq as _ Heq. exfalso.
      assert (Hin : In e later) by (rewrite <- Heq; apply in_elt).
      unfold no_launch in Hl. rewrite Forall_forall in Hl.
      specialize (Hl e Hin). congruence.
  - inversion Hq as [|? ? Hx Hq']; subst.
    destruct before as [|b before]; simpl in Heq; injection Heq as -> Heq.
    + congruence.
    + destruct (IH before Heq He Hq' Hl) as (-> & -> & ->). now repeat split.
Qed.

Lemma prints_no_launch (l : list Event) : forallb is_print l = true -> no_launch l.
Proof.
  intros H. unfold no_launch. rewrite forallb_forall in H. apply Forall_forall.
  intros e He. specialize (H e He). now destruct e.
Qed.

(** C10.  Every launch request issued from the polling loop comes right after
    the prompt "SSH key name: " and the announcement of the launch, and
    carries as its one SSH key the line the operator typed at that prompt,
    whatever key the locals held when the loop was entered. *)
Theorem retry_sends_typed_key (world : World) (fuel : nat) (st : State)
    (key : string) (data : launch_data) (result : http_result)
    (before after : list Event) :
  trace (snd (polling world fuel st)) =
    trace st ++ before ++ EvHttp (PostLaunch key data) result :: after ->
  exists earlier pieces,
    before = earlier ++ [ EvInput "SSH key name: " (stdin world (n_input st));
                          EvPrint pieces ] /\
    d_ssh_key_names data = [stdin world (n_input st)].
Proof.
  intros Htrace.
  destruct (polling_shape world fuel st) as (ext & Hext & Hshape).
  rewrite Htrace in Hext. apply app_inv_head in Hext. subst ext.
  destruct Hshape as [Hquiet | [Hretry _]].
  - exfalso. apply Forall_app in Hquiet as [_ Hquiet].
    inversion Hquiet as [|? ? Hl _]. discriminate.
  - destruct Hretry as (earlier & pieces & key' & data' & result' & later
                        & Heq & He & Hl & Hk).
    change (earlier ++ [EvInput "SSH key name: " (stdin world (n_input st));
                        EvPrint pieces; EvHttp (PostLaunch key' data') result'] ++ later)
      with (earlier ++ [EvInput "SSH key name: " (stdin world (n_input st));
                        EvPrint pieces] ++ EvHttp (PostLaunch key' data') result' :: later)
      in Heq.
    rewrite app_assoc in Heq.
    apply launch_position in Heq as (-> & Hev & _).
    + injection Hev as _ -> _. now exists earlier, pieces.
    + reflexivity.
    + apply no_launch_app; [exact He | now repeat constructor].
    + now apply prints_no_launch.
Qed.

Lemma retry_sends_typed_key_witness :
  exists earlier pieces,
    [ EvHttp (GetInstanceTypes "secret") (inr (snapshot "gpu_1x_a10" ["us-east-1"]));
      EvInput "SSH key name: " "mistyped";
      EvPrint [JStr "Launching "; JStr "gpu_1x_a10"; JStr " in region ";
               JStr "us-east-1"; JStr "..."] ] =
    earlier ++ [EvInput "SSH key name: " "mistyped"; EvPrint pieces] /\
    ["mistyped"] = ["mistyped"].
Proof.
  apply (retry_sends_typed_key world_other_key 2
           (requested "us-east-1" "gpu_1x_a10" "good" "1")
           "secret"
           {| d_region_name := JStr "us-east-1"; d_instance_type_name := "gpu_1x_a10";
              d_ssh_key_names := ["mistyped"]; d_file_system_names := [];
              d_quantity := "1" |}
           (inr launched_body)
           [ EvHttp (GetInstanceTypes "secret") (inr (snapshot "gpu_1x_a10" ["us-east-1"]));
             EvInput "SSH key name: " "mistyped";
             EvPrint [JStr "Launching "; JStr "gpu_1x_a10"; JStr " in region ";
                      JStr "us-east-1"; JStr "..."] ]
           []).
  vm_compute. reflexivity.
Defined.

(** X22.  The launch issued from the polling loop is the last exchange of
    the loop: whatever its response, only prints follow (no sleep, no poll), and
    the loop has ended. *)
Lemma retry_is_final (world : World) (fuel : nat) (st : State)
    (key : string) (data : launch_data) (result : http_result)
    (before after : list Event) :
  trace (snd (polling world fuel st)) =
    trace st ++ before ++ EvHttp (PostLaunch key data) result :: after ->
  forallb is_print after = true /\ fst (polling world fuel st) <> OutOfFuel.
Proof.
  intros Htrace.
  destruct (polling_shape world fuel st) as (ext & Hext & Hshape).
  rewrite Htrace in Hext. apply app_inv_head in Hext. subst ext.
  destruct Hshape as [Hquiet | [Hretry Hfuel]].
  - exfalso. apply Forall_app in Hquiet as [_ Hquiet].
    inversion Hquiet as [|? ? Hl _]. discriminate.
  - split; [|exact Hfuel].
    destruct Hretry as (earlier & pieces & key' & data' & result' & later
                        & Heq & He & Hl & Hk).
    change (earlier ++ [EvInput "SSH key name: " (stdin world (n_input st));
                        EvPrint pieces; EvHttp (PostLaunch key' data') result'] ++ later)
      with (earlier ++ [EvInput "SSH key name: " (stdin world (n_input st));
                        EvPrint pieces] ++ EvHttp (PostLaunch key' data') result' :: later)
      in Heq.
    rewrite app_assoc in Heq.
    apply launch_position in Heq as (_ & _ & ->); auto.
    + apply no_launch_app; [exact He | now repeat constructor].
    + now apply prints_no_launch.
Qed.

(** X23.  Whatever the launch issued from the polling loop returns, a
    response without the key [success] (as every response of the contract is: an
    object with [data] or with [error]) makes its handling raise. *)
Lemma retry_without_success_key (world : World) (fuel : nat) (st : State)
    (regions snapshot : json) (response : list (string * json)) :
  region_name (vars st) <> JStr "" ->
  http world (n_http st) = inr snapshot ->
  shows_capacity (desired_instance_type (vars st)) regions snapshot ->
  http world (S (n_http st)) = inr (JObj response) ->
  lookup "success" response = None ->
  fst (polling world (S fuel) st) = Raise (Builtin (KeyError "success")).
Proof.
  intros Hregion Hpoll (kv & types & details & -> & Hdata & Htype & Hregions & Htrue)
    Hlaunch Hsuccess.
  apply eq_str_false in Hregion.
  unfold polling. rewrite while_S. unfold poll_body. run.
  rewrite Hpoll. run. rewrite Hdata. run. rewrite Htype. run.
  destruct details as [|d details]; [discriminate|]. cbn [truthy]. run.
  rewrite Hregions, Htrue. run. rewrite Hregion. run.
  rewrite Hlaunch. run. rewrite Hsuccess. reflexivity.
Qed.

(** C3, at a run that contradicts it.  The launch issued after capacity
    appeared reports insufficient capacity again.  Line 276 reads the key
    [success], which the response does not have: the run ends in [KeyError]
    right after that exchange, without sleeping and without another poll. *)
Theorem retry_capacity_error_ends_run :
  let r := main (world_retry capacity_error_body) 3 initial in
  fst r = Raise (Builtin (KeyError "success")) /\
  from_first_launch (trace (snd r)) =
    let launch :=
      PostLaunch "secret"
        {| d_region_name := JStr "us-east-1"; d_instance_type_name := "gpu_1x_a10";
           d_ssh_key_names := ["good"]; d_file_system_names := [];
           d_quantity := "1" |} in
    [ EvHttp launch (inr capacity_error_body);
      EvHttp (GetInstanceTypes "secret") (inr (snapshot "gpu_1x_a10" ["us-east-1"]));
      EvInput "SSH key name: " "good";
      EvPrint [JStr "Launching "; JStr "gpu_1x_a10"; JStr " in region ";
               JStr "us-east-1"; JStr "..."];
      EvHttp launch (inr capacity_error_body) ].
Proof. vm_compute. split; reflexivity. Qed.

(** C5, at a run that contradicts it.  The launch issued after capacity
    appeared succeeds, with a response that follows the contract (an object
    with the key [data]).  Handling it reads the key [success] (line 276) and
    fails with [KeyError]. *)
Theorem retry_success_raises_key_error :
  let r := main (world_retry launched_body) 3 initial in
  fst r = Raise (Builtin (KeyError "success")) /\
  last (trace (snd r)) (EvSleep 0) =
    EvHttp (PostLaunch "secret"
              {| d_region_name := JStr "us-east-1"; d_instance_type_name := "gpu_1x_a10";
                 d_ssh_key_names := ["good"]; d_file_system_names := [];
                 d_quantity := "1" |})
           (inr launched_body).
Proof. vm_compute. split; reflexivity. Qed.

(** ** The fallback for an empty region *)

Ltac fallback_side :=
  intros;
  first [ assumption
        | match goal with
          | H : fallback_locals _ |- fallback_locals _ =>
              destruct H; split; assumption
          end
        | apply extends_with_snoc;
          [ intros ? ? ? Heq;
            first [ discriminate Heq
                  | match goal with
                    | H : fallback_locals _ |- _ =>
                        destruct H; injection Heq as _ <- _; split; assumption
                    end ]
          | assumption ] ].

(** As [maintain], with what is known of the locals used at each read. *)
Ltac maintain_reading side :=
  repeat first
    [ apply maintains_ret
    | apply maintains_break
    | apply maintains_eval
    | apply maintains_launch; side
    | apply maintains_assign; side
    | apply maintains_emit; side
    | apply maintains_input; side
    | apply maintains_exchange; side
    | apply maintains_while
    | apply maintains_bind_read;
      let l := fresh "l" in let Hl := fresh "Hl" in
      intros l Hl; try rewrite (proj1 Hl); cbn [eq_str String.eqb Ascii.eqb Bool.eqb]
    | apply maintains_bind; [| intros ?]
    | match goal with
      | |- maintains _ _ _ (if ?b then _ else _) => destruct b
      | |- maintains _ _ _ (match ?x with _ => _ end) => destruct x
      end
    | progress cbv beta zeta
    | progress autounfold with script ].

(** Once the locals hold the fallback values, every launch of the loop body
    is sent with them. *)
Lemma launch_body_keeps_fallback (world : World) (fuel : nat) (t0 : list Event) :
  maintains (extends_with fallback_launch t0) fallback_locals
    (fun _ => extends_with fallback_launch t0) (launch_body world fuel).
Proof. maintain_reading fallback_side. Qed.

(** The test of the first launch response leaves the state as it is, and
    yields a boolean or raises. *)
Lemma other_error_pure (response : json) (st : State) :
  (exists stop, other_error response st = (Done stop, st)) \/
  (exists e, other_error response st = (Raise (Builtin e), st)).
Proof.
  unfold other_error. exec.
  destruct (contains "error" response) as [e|[|]]; exec; eauto.
  destruct (getitem response "error") as [e|error]; exec; eauto.
  destruct (get error "code" JNull) as [e|code]; exec; eauto.
Qed.

(** The first pass through the loop body from an empty region: the fallback
    values are put in place before anything is sent. *)
Lemma launch_body_from_empty_region (world : World) (fuel : nat) (st : State) :
  region_name (vars st) = JStr "" ->
  extends_with fallback_launch (trace st) (trace (snd (launch_body world fuel st))) /\
  (fst (launch_body world fuel st) = Done tt ->
   fallback_locals (vars (snd (launch_body world fuel st)))).
Proof.
  intros Hregion.
  assert (Hlaunch : forall l result, fallback_locals l ->
            extends_with fallback_launch (trace st)
              (trace st ++ [EvHttp (launch_of l) result])).
  { intros l result [Hr Ht]. exists [EvHttp (launch_of l) result].
    split; [reflexivity|]. constructor; [|constructor].
    intros key data result' [= _ <- _]. now split. }
  set (P := fun r : outcome unit * State =>
              extends_with fallback_launch (trace st) (trace (snd r)) /\
              (fst r = Done tt -> fallback_locals (vars (snd r)))).
  change (P (launch_body world fuel st)).
  unfold launch_body. unfold bind at 1, read at 1. cbv beta iota.
  rewrite Hregion. cbn [eq_str String.eqb].
  match goal with
  | |- context [bind (bind (set_region_name _) _) ?k] => set (rest := k)
  end.
  exec.
  set (l1 := {| api_key := api_key (vars st);
                desired_instance_type := "gpu_8x_h100_sxm5";
                region_name := JStr "us-south-1";
                ssh_key_name := ssh_key_name (vars st);
                filesystem_name := filesystem_name (vars st);
                quantity := quantity (vars st);
                continue_loop := continue_loop (vars st) |}).
  assert (Hl1 : fallback_locals l1) by (split; reflexivity).
  destruct (http world (n_http st)) as [t|response]; exec.
  - split; [apply (Hlaunch l1 (inl t) Hl1) | discriminate].
  - match goal with
    | |- context [other_error response ?s] =>
        destruct (other_error_pure response s) as [[stop Hoe] | [e Hoe]];
        rewrite Hoe
    end.
    + destruct stop; exec.
      * destruct (getitem response "error") as [e|error]; exec.
        -- split; [apply (Hlaunch l1 (inr response) Hl1) | discriminate].
        -- split; [|discriminate]. cbn [snd trace].
           apply extends_with_snoc; [intros ? ? ? Heq; discriminate Heq|].
           apply (Hlaunch l1 (inr response) Hl1).
      * match goal with
        | |- P (rest tt ?s) => change (P (launch_body world fuel s));
            pose proof (launch_body_keeps_fallback world fuel (trace st) s) as Hrest
        end.
        cbv beta in Hrest.
        match type of Hrest with
        | ?A -> _ => assert (Hpre : A)
                       by (split; [apply (Hlaunch l1 (inr response) Hl1) | exact Hl1])
        end.
        specialize (Hrest Hpre).
        match goal with
        | |- P ?r => destruct r as [[[]| |[e|t]|] st2]
        end; destruct Hrest as [Ht Hv]; split; auto; discriminate.
    + split; [apply (Hlaunch l1 (inr response) Hl1) | discriminate].
Qed.

(** X21.  With an empty region, whatever the polls report and whatever
    instance type was asked for, every launch request of the launch loop names the
    region us-south-1 and the instance type gpu_8x_h100_sxm5. *)
Lemma empty_region_launches_use_fallback (world : World) (fuel : nat) (st : State) :
  region_name (vars st) = JStr "" ->
  extends_with fallback_launch (trace st) (trace (snd (launch_loop world fuel st))).
Proof.
  intros Hregion. unfold launch_loop. exec.
  destruct fuel as [|fuel].
  - exists []. split; [now rewrite app_nil_r | constructor].
  - rewrite while_S. cbn [vars continue_loop].
    match goal with
    | |- context [launch_body world (S fuel) ?s] =>
        destruct (launch_body_from_empty_region world (S fuel) s Hregion)
          as [Htrace Hlocals];
        destruct (launch_body world (S fuel) s) as [[[]| |e|] st1]
    end; cbn [fst snd trace] in *; try exact Htrace.
    pose proof (maintains_while _ _ _ fuel continue_loop _
                  (launch_body_keeps_fallback world (S fuel) (trace st)) st1) as Hloop.
    cbv beta in Hloop.
    match type of Hloop with
    | ?A -> _ => assert (Hpre : A) by (split; [exact Htrace | now apply Hlocals])
    end.
    specialize (Hloop Hpre).
    match goal with
    | |- context [while fuel continue_loop ?b st1] =>
        destruct (while fuel continue_loop b st1) as [[[]| |[e|t]|] st2]
    end; apply Hloop.
Qed.

(** C1, at a run that contradicts it.  The operator leaves the region empty;
    the launches report insufficient capacity; the poll then shows capacity in
    us-west-3 first.  The launch that follows the poll goes to us-south-1, the
    region line 215 has put in place of the empty one, so that the test of
    line 262 never holds. *)
Theorem empty_region_retry_ignores_capacity :
  from_first_launch (trace (snd (main world_empty_region 3 initial))) =
    let launch := fun ssh =>
      PostLaunch "secret"
        {| d_region_name := JStr "us-south-1";
           d_instance_type_name := "gpu_8x_h100_sxm5";
           d_ssh_key_names := [ssh]; d_file_system_names := [];
           d_quantity := "1" |} in
    [ EvHttp (launch "good") (inr capacity_error_body);
      EvHttp (launch "good") (inr capacity_error_body);
      EvHttp (GetInstanceTypes "secret")
        (inr (snapshot "gpu_8x_h100_sxm5" ["us-west-3"; "us-east-1"]));
      EvInput "SSH key name: " "good";
      EvPrint [JStr "Launching "; JStr "gpu_8x_h100_sxm5"; JStr " in region ";
               JStr "us-south-1"; JStr "..."];
      EvHttp (launch "good") (inr launched_body) ].
Proof. vm_compute. reflexivity. Qed.

(** C4, at a run that contradicts it.  The operator asks for gpu_1x_a10 and
    leaves the region empty: every launch request names gpu_8x_h100_sxm5, the
    type line 216 has put in its place.  The quantity is the one typed. *)
Theorem empty_region_replaces_instance_type :
  let r := main world_other_type 3 initial in
  In (EvInput "Enter the desired instance type: " "gpu_1x_a10") (trace (snd r)) /\
  map d_instance_type_name (launches (trace (snd r))) =
    ["gpu_8x_h100_sxm5"; "gpu_8x_h100_sxm5"] /\
  map d_quantity (launches (trace (snd r))) = ["2"; "2"].
Proof. vm_compute. intuition. Qed.

(** * Further properties *)

(** ** The prompts *)

Lemma in_strings_In (s : string) (l : list string) :
  in_strings s l = true <-> In s l.
Proof.
  unfold in_strings. rewrite existsb_exists. split.
  - intros (x & Hx & Heq). apply String.eqb_eq in Heq. now subst.
  - intros H. exists s. split; [exact H | apply String.eqb_refl].
Qed.

Lemma in_values_In (s : string) (l : list json) :
  in_values s l = true <-> In (JStr s) l.
Proof.
  unfold in_values. rewrite existsb_exists. split.
  - intros (x & Hx & Heq). apply eq_str_true in Heq. now subst.
  - intros H. exists (JStr s). split; [exact H | now apply eq_str_true].
Qed.

Lemma comprehension_In {A B : Type} (f : A -> res B) (l : list A) (ys : list B) (y : B) :
  comprehension f l = inr ys -> In y ys -> exists x, In x l /\ f x = inr y.
Proof.
  revert ys. induction l as [|x l IH]; simpl; intros ys H Hin.
  - injection H as <-. contradiction.
  - destruct (f x) as [e|y0] eqn:Hx; [discriminate|].
    destruct (comprehension f l) as [e|ys0]; [discriminate|].
    injection H as <-. destruct Hin as [<-|Hin].
    + exists x. split; [now left | exact Hx].
    + destruct (IH ys0 eq_refl Hin) as (x' & Hx' & Hf). exists x'. split; [now right | exact Hf].
Qed.

(** X1.  Every instance type the script lists has a non-empty list of
    regions in the catalog: for a listed type the region prompt is never
    shown the not-found message. *)
Theorem listed_instance_type_has_regions (instance_type : string) :
  In instance_type get_instance_types ->
  exists r rs,
    lookup instance_type INSTANCE_TYPES_AND_REGIONS = Some (r :: rs) /\
    get_regions_for_instance_type instance_type = Regions (r :: rs).
Proof.
  intros H. simpl in H.
  repeat (destruct H as [<-|H]; [eexists _, _; split; reflexivity|]).
  contradiction.
Qed.

Lemma listed_instance_type_has_regions_witness :
  exists r rs,
    lookup "gpu_1x_a10" INSTANCE_TYPES_AND_REGIONS = Some (r :: rs) /\
    get_regions_for_instance_type "gpu_1x_a10" = Regions (r :: rs).
Proof.
  apply (listed_instance_type_has_regions "gpu_1x_a10").
  simpl. tauto.
Defined.

(** A loop whose condition is constantly true and whose body keeps [Inv]
    ends normally only through a [break] from a state that satisfies it. *)
Lemma while_true_done_inv (Inv : State -> Prop) (n : nat) (body : M unit) :
  (forall s s', Inv s -> body s = (Done tt, s') -> Inv s') ->
  forall st st',
    Inv st ->
    while n (fun _ => true) body st = (Done tt, st') ->
    exists st0, Inv st0 /\ body st0 = (Break, st').
Proof.
  intros Hkeep. induction n as [|n IH]; intros st st' Hst H; simpl in H.
  - discriminate.
  - destruct (body st) as [[[]| |e|] st1] eqn:Hb.
    + apply (IH st1); [now apply (Hkeep st) | exact H].
    + injection H as <-. now exists st.
    + discriminate.
    + discriminate.
Qed.

Lemma while_not_break (n : nat) (cond : Locals -> bool) (body : M unit)
    (st st' : State) :
  while n cond body st <> (Break, st').
Proof.
  revert st. induction n as [|n IH]; intros st; simpl.
  - discriminate.
  - destruct (cond (vars st)); [|discriminate].
    destruct (body st) as [[[]| |e|] st1]; try discriminate. apply IH.
Qed.

(** X2.  When the API key prompt lets a key through, the last thing the
    script did was to ask for the instance types with that key, and the answer
    was an object whose [data] is a non-empty object; the key is the one the
    locals keep. *)
Theorem api_key_accepted (world : World) (fuel : nat) (st st' : State) :
  api_key_input world fuel st = (Done tt, st') ->
  exists before kv types,
    trace st' = before ++
      [ EvInput "API key: " (api_key (vars st'));
        EvHttp (GetInstanceTypes (api_key (vars st'))) (inr (JObj kv)) ] /\
    lookup "data" kv = Some (JObj types) /\
    types <> [].
Proof.
  intros H. apply while_true_done in H as [st0 H]. revert H.
  unfold get_valid_instance_types. exec.
  destruct (http world (n_http st0)) as [t|body]; exec; [discriminate|].
  destruct body as [| | | | |kv]; run; try discriminate.
  destruct (lookup "data" kv) as [[| | | | |types]|] eqn:Hdata; run; try discriminate.
  destruct types as [|entry types]; cbn [map]; run; [discriminate|].
  intros [= <-]. cbn [vars api_key trace].
  exists (trace st0), kv, (entry :: types).
  repeat split; [now rewrite <- app_assoc | exact Hdata | discriminate].
Qed.

Lemma api_key_accepted_witness :
  exists before kv types,
    trace (snd (api_key_input world_two_keys 2 initial)) = before ++
      [ EvInput "API key: " "secret";
        EvHttp (GetInstanceTypes "secret") (inr (JObj kv)) ] /\
    lookup "data" kv = Some (JObj types) /\
    types <> [].
Proof.
  apply (api_key_accepted world_two_keys 2 initial
           (snd (api_key_input world_two_keys 2 initial))).
  vm_compute. reflexivity.
Defined.

(** X3.  An answer to the instance-types request that is an object without
    [data], or with an empty one (as the API's error answers are), makes the
    API key prompt report the key as invalid and ask again: nothing is raised
    and the answer's [error] is not shown. *)
Theorem api_key_refused (world : World) (fuel : nat) (st : State)
    (kv : list (string * json)) :
  http world (n_http st) = inr (JObj kv) ->
  lookup "data" kv = None \/ lookup "data" kv = Some (JObj []) ->
  api_key_input world (S fuel) st = api_key_input world fuel (key_refused world st).
Proof.
  intros Hhttp Hdata. unfold api_key_input. rewrite while_S. cbv beta iota.
  match goal with |- context [while fuel _ ?b] => set (body := b) end.
  assert (Hbody : body st = (Done tt, key_refused world st)).
  { unfold body, get_valid_instance_types, key_refused. run. rewrite Hhttp. run.
    destruct Hdata as [-> | ->]; run; cbn [map]; run;
      rewrite <- !app_assoc; reflexivity. }
  rewrite Hbody. reflexivity.
Qed.

Lemma api_key_refused_witness :
  api_key_input world_two_keys 2 initial =
  api_key_input world_two_keys 1 (key_refused world_two_keys initial).
Proof.
  apply (api_key_refused world_two_keys 1 initial
           [("error", JObj [("code", JStr "global/invalid-api-key")])]).
  - reflexivity.
  - left. reflexivity.
Defined.

Lemma instance_type_selection_listed (world : World) (fuel : nat) (st st' : State) :
  instance_type_selection world fuel st = (Done tt, st') ->
  In (desired_instance_type (vars st')) get_instance_types.
Proof.
  unfold instance_type_selection. cbv zeta. unfold bind at 1. exec.
  intros H. apply while_true_done in H as [st0 H]. revert H. exec.
  destruct (in_strings (stdin world (n_input st0)) get_instance_types) eqn:Hin;
    cbn [negb]; exec; [|discriminate].
  intros [= <-]. cbn [vars desired_instance_type]. now apply in_strings_In.
Qed.

(** X4.  The instance type prompt lets through only a type of the static
    catalog. *)
Theorem instance_type_accepted (world : World) (fuel : nat) (st st' : State) :
  instance_type_selection world fuel st = (Done tt, st') ->
  In (desired_instance_type (vars st')) get_instance_types.
Proof. apply instance_type_selection_listed. Qed.

Lemma instance_type_accepted_witness :
  In (desired_instance_type
        (vars (snd (instance_type_selection world_file_system 2
                      {| vars := unset; n_input := 1; n_http := 1; trace := [] |}))))
     get_instance_types.
Proof.
  apply (instance_type_accepted world_file_system 2
           {| vars := unset; n_input := 1; n_http := 1; trace := [] |}).
  vm_compute. reflexivity.
Defined.

(** X5.  When the catalog has regions for the chosen instance type, the
    region prompt lets through only the empty line or one of those regions. *)
Theorem region_accepted (world : World) (fuel : nat) (st st' : State)
    (regions : list string) :
  get_regions_for_instance_type (desired_instance_type (vars st)) = Regions regions ->
  region_selection world fuel st = (Done tt, st') ->
  exists region,
    region_name (vars st') = JStr region /\ (region = "" \/ In region regions).
Proof.
  intros Hregions. unfold region_selection. exec. rewrite Hregions.
  intros H. apply while_true_done in H as [st0 H]. revert H. exec.
  set (region := stdin world (n_input st0)).
  destruct (String.eqb_spec region "") as [Hempty|Hgiven]; cbn [negb andb]; exec.
  - intros [= <-]. exists region. split; [reflexivity | now left].
  - cbn [in_regions]. destruct (in_strings region regions) eqn:Hin; cbn [negb]; exec;
      [|discriminate].
    intros [= <-]. exists region. split; [reflexivity|]. right.
    now apply in_strings_In.
Qed.

Lemma region_accepted_witness :
  let st := {| vars := vars (requested "" "gpu_1x_a10" "" "");
               n_input := 2; n_http := 1; trace := [] |} in
  exists region,
    region_name (vars (snd (region_selection world_file_system 2 st))) = JStr region /\
    (region = "" \/ In region ["us-east-1"; "us-west-1"]).
Proof.
  apply (region_accepted world_file_system 2
           {| vars := vars (requested "" "gpu_1x_a10" "" "");
              n_input := 2; n_http := 1; trace := [] |}
           (snd (region_selection world_file_system 2
                   {| vars := vars (requested "" "gpu_1x_a10" "" "");
                      n_input := 2; n_http := 1; trace := [] |}))
           ["us-east-1"; "us-west-1"]).
  - reflexivity.
  - vm_compute. reflexivity.
Defined.

Lemma accepted_name_is_named (name : string) (body items : json)
    (l names : list json) (kv : list (string * json)) :
  body = JObj kv ->
  lookup "data" kv = Some items ->
  iter items = inr l ->
  comprehension (fun key => getitem key "name") l = inr names ->
  in_values name names = true ->
  named (JStr name) body.
Proof.
  intros -> Hdata Hiter Hnames Hin. apply in_values_In in Hin.
  destruct (comprehension_In _ _ _ _ Hnames Hin) as (item & Hitem & Hname).
  now exists kv, items, l, item.
Qed.

Lemma getitem_data (body items : json) :
  getitem body "data" = inr items ->
  exists kv, body = JObj kv /\ lookup "data" kv = Some items.
Proof.
  destruct body as [| | | | |kv]; simpl; try discriminate.
  destruct (lookup "data" kv) as [x|] eqn:H; [|discriminate].
  intros [= <-]. now exists kv.
Qed.

(** X6.  The SSH key prompt lets through only a name that the answer to the
    ssh-keys request lists: the value under [name] of one of the items under
    [data]. *)
Theorem ssh_key_accepted (world : World) (fuel : nat) (st st' : State) :
  ssh_key_selection world fuel st = (Done tt, st') ->
  exists body,
    http world (n_http st) = inr body /\
    named (JStr (ssh_key_name (vars st'))) body.
Proof.
  unfold ssh_key_selection, get_ssh_keys. exec.
  destruct (http world (n_http st)) as [t|body]; exec; [discriminate|].
  destruct (getitem body "data") as [e|items] eqn:Hdata; exec; [discriminate|].
  destruct (iter items) as [e|l] eqn:Hiter; exec; [discriminate|].
  destruct (comprehension (fun key => getitem key "name") l) as [e|names] eqn:Hnames;
    exec; [discriminate|].
  intros H. apply while_true_done in H as [st0 H]. revert H. exec.
  destruct (in_values (stdin world (n_input st0)) names) eqn:Hin; exec; [|discriminate].
  intros [= <-]. cbn [vars ssh_key_name]. exists body. split; [reflexivity|].
  destruct (getitem_data _ _ Hdata) as (kv & Hbody & Hlookup).
  now apply (accepted_name_is_named _ body items l names kv).
Qed.

Lemma ssh_key_accepted_witness :
  let st := {| vars := vars (requested "us-east-1" "gpu_1x_a10" "" "");
               n_input := 3; n_http := 1; trace := [] |} in
  exists body,
    http world_file_system 1 = inr body /\
    named (JStr (ssh_key_name (vars (snd (ssh_key_selection world_file_system 2 st)))))
      body.
Proof.
  apply (ssh_key_accepted world_file_system 2
           {| vars := vars (requested "us-east-1" "gpu_1x_a10" "" "");
              n_input := 3; n_http := 1; trace := [] |}
           (snd (ssh_key_selection world_file_system 2
                   {| vars := vars (requested "us-east-1" "gpu_1x_a10" "" "");
                      n_input := 3; n_http := 1; trace := [] |}))).
  vm_compute. reflexivity.
Defined.

(** X7.  The file system prompt ends with no file system (the answer was n
    or N), or with a name that the answer to a file-systems request made
    during the prompt lists. *)
Theorem file_system_accepted (world : World) (fuel : nat) (st st' : State) :
  file_system_selection world fuel st = (Done tt, st') ->
  filesystem_name (vars st') = None \/
  exists name key body,
    filesystem_name (vars st') = Some name /\
    In (EvHttp (GetFileSystems key) (inr body)) (trace st') /\
    named (JStr name) body.
Proof.
  intros H. apply while_true_done in H as [st0 H]. revert H.
  unfold get_file_systems. exec.
  destruct (lower (stdin world (n_input st0)) =? "y")%string; exec.
  - destruct (http world (n_http st0)) as [t|body]; exec; [discriminate|].
    destruct (getitem body "data") as [e|items] eqn:Hdata; exec; [discriminate|].
    destruct (iter items) as [e|l] eqn:Hiter; exec; [discriminate|].
    destruct (comprehension (fun key => getitem key "name") l) as [e|names] eqn:Hnames;
      exec; [discriminate|].
    match goal with
    | |- context [while fuel ?c ?b ?s] =>
        destruct (while fuel c b s) as [[[]| |e|] st1] eqn:Hloop;
        try discriminate;
        [|exfalso; exact (while_not_break _ _ _ _ _ Hloop)];
        pose proof
          (fun Hkeep Hinit =>
             while_true_done_inv
               (fun x => In (EvHttp (GetFileSystems (api_key (vars st0))) (inr body))
                            (trace x))
               fuel b Hkeep s st1 Hinit Hloop) as Hinv
    end.
    destruct Hinv as (st2 & Hin & Hbreak).
    + intros s s' Hs. exec.
      destruct (in_values (stdin world (n_input s)) names); exec; [discriminate|].
      intros [= <-]. cbn [trace]. apply in_or_app. left. apply in_or_app. now left.
    + cbn [trace]. apply in_or_app. left. apply in_or_app. right. now left.
    + intros [= <-]. revert Hbreak. exec.
      destruct (in_values (stdin world (n_input st2)) names) eqn:Hname; exec;
        [|discriminate].
      intros [= <-]. cbn [vars filesystem_name trace]. right.
      exists (stdin world (n_input st2)), (api_key (vars st0)), body.
      split; [reflexivity|]. split; [apply in_or_app; now left|].
      destruct (getitem_data _ _ Hdata) as (kv & Hbody & Hlookup).
      now apply (accepted_name_is_named _ body items l names kv).
  - destruct (lower (stdin world (n_input st0)) =? "n")%string; exec; [|discriminate].
    intros [= <-]. now left.
Qed.

Lemma file_system_accepted_witness :
  let st := {| vars := vars (requested "us-east-1" "gpu_1x_a10" "good" "");
               n_input := 4; n_http := 2; trace := [] |} in
  let st' := snd (file_system_selection world_file_system 3 st) in
  filesystem_name (vars st') = None \/
  exists name key body,
    filesystem_name (vars st') = Some name /\
    In (EvHttp (GetFileSystems key) (inr body)) (trace st') /\
    named (JStr name) body.
Proof.
  apply (file_system_accepted world_file_system 3
           {| vars := vars (requested "us-east-1" "gpu_1x_a10" "good" "");
              n_input := 4; n_http := 2; trace := [] |}).
  vm_compute. reflexivity.
Defined.

(** ** The requests for SSH keys and file systems *)

Lemma comprehension_names (items names : list json) :
  names_of items names ->
  comprehension (fun key => getitem key "name") items = inr names.
Proof.
  induction 1 as [|item name items names (kv & -> & Hname) _ IH]; simpl.
  - reflexivity.
  - rewrite Hname, IH. reflexivity.
Qed.

(** X8.  On an answer that lists objects under [data], each with a [name],
    [get_ssh_keys] and [get_file_systems] return exactly those names, in the
    order of the answer. *)
Theorem listed_names_returned (world : World) (key : string) (st : State)
    (kv : list (string * json)) (items names : list json) :
  http world (n_http st) = inr (JObj kv) ->
  lookup "data" kv = Some (JArr items) ->
  names_of items names ->
  fst (get_ssh_keys world key st) = Done names /\
  fst (get_file_systems world key st) = Done names.
Proof.
  intros Hhttp Hdata Hnames. apply comprehension_names in Hnames.
  unfold get_ssh_keys, get_file_systems. exec.
  rewrite Hhttp. exec. cbn [getitem]. rewrite Hdata. exec. cbn [iter]. exec.
  rewrite Hnames. split; reflexivity.
Qed.

Lemma listed_names_returned_witness :
  fst (get_ssh_keys world_file_system "secret"
         {| vars := unset; n_input := 0; n_http := 1; trace := [] |}) =
    Done [JStr "good"; JStr "other"] /\
  fst (get_file_systems world_file_system "secret"
         {| vars := unset; n_input := 0; n_http := 1; trace := [] |}) =
    Done [JStr "good"; JStr "other"].
Proof.
  apply (listed_names_returned world_file_system "secret"
           {| vars := unset; n_input := 0; n_http := 1; trace := [] |}
           [("data", JArr [JObj [("id", JStr "good"); ("name", JStr "good")];
                           JObj [("id", JStr "other"); ("name", JStr "other")]])]
           [JObj [("id", JStr "good"); ("name", JStr "good")];
            JObj [("id", JStr "other"); ("name", JStr "other")]]
           [JStr "good"; JStr "other"]).
  - reflexivity.
  - reflexivity.
  - repeat constructor; eexists; split; reflexivity.
Defined.

(** X9.  An answer without [data] (as the API's error answers are) makes
    [get_ssh_keys] and [get_file_systems] raise [KeyError] for that key, and
    the SSH key prompt ends the run with it before asking anything: unlike the
    API key prompt, these requests do not survive an error answer. *)
Theorem missing_data_raises (world : World) (fuel : nat) (key : string) (st : State)
    (kv : list (string * json)) :
  http world (n_http st) = inr (JObj kv) ->
  lookup "data" kv = None ->
  fst (get_ssh_keys world key st) = Raise (Builtin (KeyError "data")) /\
  fst (get_file_systems world key st) = Raise (Builtin (KeyError "data")) /\
  fst (ssh_key_selection world fuel st) = Raise (Builtin (KeyError "data")) /\
  trace (snd (ssh_key_selection world fuel st)) =
    trace st ++ [EvHttp (GetSshKeys (api_key (vars st))) (inr (JObj kv))].
Proof.
  intros Hhttp Hdata.
  unfold ssh_key_selection, get_ssh_keys, get_file_systems. run.
  rewrite Hhttp. run. rewrite Hdata. repeat split; reflexivity.
Qed.

Lemma missing_data_raises_witness :
  let st := {| vars := unset; n_input := 0; n_http := 0; trace := [] |} in
  fst (get_ssh_keys world_two_keys "wrong" st) = Raise (Builtin (KeyError "data")) /\
  fst (get_file_systems world_two_keys "wrong" st) = Raise (Builtin (KeyError "data")) /\
  fst (ssh_key_selection world_two_keys 3 st) = Raise (Builtin (KeyError "data")) /\
  trace (snd (ssh_key_selection world_two_keys 3 st)) =
    [] ++ [EvHttp (GetSshKeys "")
             (inr (JObj [("error", JObj [("code", JStr "global/invalid-api-key")])]))].
Proof.
  apply (missing_data_raises world_two_keys 3 "wrong"
           {| vars := unset; n_input := 0; n_http := 0; trace := [] |}
           [("error", JObj [("code", JStr "global/invalid-api-key")])]).
  - reflexivity.
  - reflexivity.
Defined.

(** ** The lines the prompts take *)






Lemma lower_single (s : string) (c : ascii) :
  lower s = String c EmptyString ->
  exists a, s = String a EmptyString /\ lower_char a = c.
Proof.
  destruct s as [|a [|b s]]; simpl; try discriminate.
  intros [= <-]. now exists a.
Qed.

Lemma lower_char_y (a : ascii) :
  lower_char a = "y"%char -> a = "y"%char \/ a = "Y"%char.
Proof.
  destruct a as [[] [] [] [] [] [] [] []]; vm_compute; intros H;
    first [discriminate H | now left | now right].
Qed.

Lemma lower_char_n (a : ascii) :
  lower_char a = "n"%char -> a = "n"%char \/ a = "N"%char.
Proof.
  destruct a as [[] [] [] [] [] [] [] []]; vm_compute; intros H;
    first [discriminate H | now left | now right].
Qed.

Lemma lower_not (s : string) (c : ascii) :
  (forall a, lower_char a = c -> s <> String a EmptyString) ->
  (lower s =? String c EmptyString)%string = false.
Proof.
  intros H. apply String.eqb_neq. intros Heq.
  destruct (lower_single _ _ Heq) as (a & -> & Ha). now apply (H a).
Qed.

(** X11.  The file system prompt takes y, Y, n and N for an answer and no
    other line: on n or N it ends at once with no file system and without an
    exchange; on any line other than these four it prints its refusal and
    asks again (the run then goes on as the prompt does from there, when that
    ends within the bound). *)
Theorem file_system_answers (world : World) (fuel : nat) (st : State) :
  (stdin world (n_input st) = "n" \/ stdin world (n_input st) = "N" ->
   file_system_selection world (S fuel) st = (Done tt, answered_no world st)) /\
  (stdin world (n_input st) <> "y" -> stdin world (n_input st) <> "Y" ->
   stdin world (n_input st) <> "n" -> stdin world (n_input st) <> "N" ->
   fst (file_system_selection world fuel (answer_refused world st)) <> OutOfFuel ->
   file_system_selection world (S fuel) st =
   file_system_selection world fuel (answer_refused world st)).
Proof.
  split.
  - intros Hno. unfold file_system_selection. rewrite while_S. cbv beta iota. exec.
    unfold answered_no. destruct Hno as [-> | ->]; reflexivity.
  - intros Hy HY Hn HN Hends.
    assert (Hle : fuel <= S fuel) by lia.
    unfold file_system_selection in *. rewrite while_S. cbv beta iota.
    match goal with |- context [while fuel _ ?b] => set (body := b) end.
    assert (Hbody : body st = (Done tt, answer_refused world st)).
    { unfold body, answer_refused. exec.
      rewrite (lower_not _ "y"%char), (lower_not _ "n"%char).
      - exec. rewrite <- app_assoc. reflexivity.
      - intros a Ha. destruct (lower_char_n a Ha) as [-> | ->]; assumption.
      - intros a Ha. destruct (lower_char_y a Ha) as [-> | ->]; assumption. }
    rewrite Hbody.
    match type of Hends with
    | fst (while fuel ?c ?b0 ?s) <> _ =>
        apply (agrees_while fuel fuel c b0 body (le_n fuel)); [|exact Hends]
    end.
    unfold body. agree Hle.
Qed.

Lemma file_system_answers_witness :
  (let w := {| stdin := operator ["N"]; http := server [] |} in
   file_system_selection w 1 initial = (Done tt, answered_no w initial)) /\
  (let w := {| stdin := operator ["yes"; "n"]; http := server [] |} in
   file_system_selection w 2 initial =
   file_system_selection w 1 (answer_refused w initial)).
Proof.
  split.
  - apply (proj1 (file_system_answers {| stdin := operator ["N"]; http := server [] |}
                    0 initial)).
    right. reflexivity.
  - apply (proj2 (file_system_answers
                    {| stdin := operator ["yes"; "n"]; http := server [] |} 1 initial));
      discriminate.
Defined.

(** ** The first launch, again *)

(** X12.  With a region given, a first launch whose answer has [data] and no
    [error] ends the run: the request carries the values of the locals, the
    script prints the success and the data, and makes no other exchange. *)
Theorem first_launch_success (world : World) (fuel : nat) (st : State)
    (kv : list (string * json)) (data : json) :
  region_name (vars st) <> JStr "" ->
  http world (n_http st) = inr (JObj kv) ->
  lookup "error" kv = None ->
  lookup "data" kv = Some data ->
  exists st',
    launch_loop world (S fuel) st = (Done tt, st') /\
    trace st' = trace st ++
      [ EvHttp (launch_of (vars st)) (inr (JObj kv));
        EvPrint [JStr "Instance launched successfully!"];
        EvPrint [JStr "Launch response:"; data] ] /\
    n_http st' = S (n_http st).
Proof.
  intros Hregion Hhttp Herror Hdata. apply eq_str_false in Hregion.
  unfold launch_loop, launch_body. run. rewrite while_S. run.
  rewrite Hregion. run. rewrite Hhttp. run. rewrite Herror. run.
  rewrite Hdata. run.
  eexists. split; [reflexivity|]. run.
  split; [rewrite <- !app_assoc; reflexivity | reflexivity].
Qed.

Lemma first_launch_success_witness :
  exists st',
    launch_loop world_two_successes 1 (requested "us-east-1" "gpu_1x_a10" "good" "1") =
      (Done tt, st') /\
    trace st' = [] ++
      [ EvHttp (launch_of (vars (requested "us-east-1" "gpu_1x_a10" "good" "1")))
          (inr launched_body);
        EvPrint [JStr "Instance launched successfully!"];
        EvPrint [JStr "Launch response:"; JObj [("instance_ids", JArr [JStr "i-123"])]] ] /\
    n_http st' = 1.
Proof.
  apply (first_launch_success world_two_successes 0
           (requested "us-east-1" "gpu_1x_a10" "good" "1")
           [("data", JObj [("instance_ids", JArr [JStr "i-123"])])]
           (JObj [("instance_ids", JArr [JStr "i-123"])])).
  - discriminate.
  - reflexivity.
  - reflexivity.
  - reflexivity.
Defined.

(** X13.  With an empty region, a first launch whose answer has no [error]
    (a successful launch among them) is followed at once by a second launch
    request with the same body; when that one succeeds the run ends, two
    launch requests having been sent. *)
Theorem empty_region_launches_twice (world : World) (fuel : nat) (st : State)
    (kv1 kv2 : list (string * json)) (data : json) :
  region_name (vars st) = JStr "" ->
  http world (n_http st) = inr (JObj kv1) ->
  lookup "error" kv1 = None ->
  http world (S (n_http st)) = inr (JObj kv2) ->
  lookup "error" kv2 = None ->
  lookup "data" kv2 = Some data ->
  exists st',
    launch_loop world (S fuel) st = (Done tt, st') /\
    trace st' = trace st ++
      [ EvHttp (launch_of (with_fallback (vars st))) (inr (JObj kv1));
        EvHttp (launch_of (with_fallback (vars st))) (inr (JObj kv2));
        EvPrint [JStr "Instance launched successfully!"];
        EvPrint [JStr "Launch response:"; data] ].
Proof.
  intros Hregion Hhttp1 Herror1 Hhttp2 Herror2 Hdata.
  unfold launch_loop, launch_body. run. rewrite while_S. run.
  rewrite Hregion. cbn [eq_str String.eqb]. run.
  rewrite Hhttp1. run. rewrite Herror1. run.
  rewrite Hhttp2. run. rewrite Herror2. run. rewrite Hdata. run.
  eexists. split; [reflexivity|]. run.
  rewrite <- !app_assoc. reflexivity.
Qed.

Lemma empty_region_launches_twice_witness :
  exists st',
    launch_loop world_two_successes 1 (requested "" "gpu_1x_a10" "good" "1") =
      (Done tt, st') /\
    trace st' = [] ++
      [ EvHttp (launch_of (with_fallback (vars (requested "" "gpu_1x_a10" "good" "1"))))
          (inr launched_body);
        EvHttp (launch_of (with_fallback (vars (requested "" "gpu_1x_a10" "good" "1"))))
          (inr (JObj [("data", JObj [("instance_ids", JArr [JStr "i-456"])])]));
        EvPrint [JStr "Instance launched successfully!"];
        EvPrint [JStr "Launch response:"; JObj [("instance_ids", JArr [JStr "i-456"])]] ].
Proof.
  apply (empty_region_launches_twice world_two_successes 0
           (requested "" "gpu_1x_a10" "good" "1")
           [("data", JObj [("instance_ids", JArr [JStr "i-123"])])]
           [("data", JObj [("instance_ids", JArr [JStr "i-456"])])]
           (JObj [("instance_ids", JArr [JStr "i-456"])])); reflexivity.
Defined.

Ltac kept_side :=
  intros;
  first [ assumption
        | match goal with
          | H : request_kept _ _ |- request_kept _ _ =>
              destruct H as (? & ? & ? & ? & ? & ?); repeat split; assumption
          end
        | apply extends_with_snoc;
          [ intros ? ? ? Heq;
            first [ discriminate Heq
                  | match goal with
                    | H : request_kept ?l0 ?l |- _ =>
                        destruct H as (_ & Hk & Hr & Ht & Hf & Hq);
                        injection Heq as <- <- _; exists (ssh_key_name l);
                        unfold launch_of, with_ssh_key;
                        cbn [api_key region_name desired_instance_type ssh_key_name
                             filesystem_name quantity];
                        rewrite Hk, Hr, Ht, Hf, Hq; reflexivity
                    end ]
          | assumption ] ].

Lemma launch_loop_keeps_request (world : World) (fuel : nat) (l0 : Locals)
    (t0 : list Event) :
  maintains (extends_with (same_request l0) t0) (request_kept l0)
    (fun _ => extends_with (same_request l0) t0) (launch_loop world fuel).
Proof. maintain_reading kept_side. Qed.

(** X14.  With a region given, every launch request of the launch loop
    carries the API key, the region, the instance type, the file system and
    the quantity that the locals hold when the loop starts; only the SSH key
    may differ. *)
Theorem given_region_request_kept (world : World) (fuel : nat) (st : State) :
  region_name (vars st) <> JStr "" ->
  extends_with (same_request (vars st)) (trace st)
    (trace (snd (launch_loop world fuel st))).
Proof.
  intros Hregion. apply eq_str_false in Hregion.
  assert (H0 : holds (extends_with (same_request (vars st)) (trace st))
                 (request_kept (vars st)) st).
  { split.
    - exists []. split; [now rewrite app_nil_r | constructor].
    - repeat split. exact Hregion. }
  pose proof (launch_loop_keeps_request world fuel (vars st) (trace st) st H0) as H.
  destruct (launch_loop world fuel st) as [[[]| |[e|t]|] st']; apply H.
Qed.

Lemma given_region_request_kept_witness :
  extends_with (same_request (vars (requested "us-east-1" "gpu_1x_a10" "good" "1"))) []
    (trace (snd (launch_loop world_retry_loop 3
                   (requested "us-east-1" "gpu_1x_a10" "good" "1")))).
Proof.
  apply (given_region_request_kept world_retry_loop 3
           (requested "us-east-1" "gpu_1x_a10" "good" "1")).
  discriminate.
Defined.

(** ** The pace of the polls *)

Lemma poll_body_pace (world : World) (st : State) :
  exists rest,
    trace (snd (poll_body world st)) =
      trace st ++
      EvHttp (GetInstanceTypes (api_key (vars st))) (http world (n_http st)) :: rest /\
    no_poll rest /\
    (fst (poll_body world st) = Done tt -> exists rest', rest = rest' ++ [EvSleep 2]).
Proof.
  unfold poll_body. exec. repeat split_next.
  all: flatten_trace; eexists; (split; [reflexivity|]).
  all: split; [solve [repeat constructor]|].
  all: intros H; try discriminate H.
  all: first [ now exists [] | refine (ex_intro _ [_] _); reflexivity ].
Qed.

Lemma poll_inside (quiet ext before after : list Event) (p : Event) :
  quiet ++ ext = before ++ p :: after ->
  no_poll quiet -> is_poll p = true ->
  exists inner, before = quiet ++ inner /\ ext = inner ++ p :: after.
Proof.
  revert before. induction quiet as [|q quiet IH]; intros before Heq Hq Hp.
  - now exists before.
  - inversion Hq as [|? ? Hq0 Hq']; subst.
    destruct before as [|b before]; simpl in Heq; injection Heq as -> Heq.
    + congruence.
    + destruct (IH before Heq Hq' Hp) as (inner & -> & ->). now exists inner.
Qed.

Lemma paced_single (p : Event) (rest : list Event) :
  no_poll rest -> paced (p :: rest).
Proof.
  intros Hrest before after key result Heq.
  destruct before as [|b before]; [now left|]. exfalso.
  simpl in Heq. injection Heq as _ Heq.
  assert (Hin : In (EvHttp (GetInstanceTypes key) result) rest)
    by (rewrite Heq; apply in_elt).
  unfold no_poll in Hrest. rewrite Forall_forall in Hrest.
  specialize (Hrest _ Hin). discriminate.
Qed.

Lemma paced_step (p : Event) (rest ext : list Event) :
  no_poll rest -> paced ext ->
  paced ((p :: rest ++ [EvSleep 2]) ++ ext).
Proof.
  intros Hrest Hext before after key result Heq.
  destruct before as [|b before]; [now left|]. right.
  simpl in Heq. injection Heq as <- Heq.
  destruct (poll_inside (rest ++ [EvSleep 2]) ext before after _ Heq)
    as (inner & -> & Hinner).
  - apply Forall_app. split; [exact Hrest | now repeat constructor].
  - reflexivity.
  - destruct (Hext inner after key result Hinner) as [-> | (earlier & ->)].
    + exists (p :: rest). now rewrite app_nil_r.
    + exists (p :: (rest ++ [EvSleep 2]) ++ earlier).
      simpl. now rewrite !app_assoc.
Qed.

Lemma polling_paced (world : World) (fuel : nat) :
  forall st, exists ext,
    trace (snd (polling world fuel st)) = trace st ++ ext /\ paced ext.
Proof.
  unfold polling. induction fuel as [|fuel IH]; intros st.
  - exists []. split; [now rewrite app_nil_r|].
    intros before after key result Heq. now destruct before.
  - rewrite while_S. cbv beta iota.
    destruct (poll_body_pace world st) as (rest & Htrace & Hrest & Hdone).
    destruct (poll_body world st) as [[[]| |e|] st1]; cbn [fst snd] in *.
    + destruct (Hdone eq_refl) as (rest' & ->).
      destruct (IH st1) as (ext & Hext & Hpaced).
      eexists. split.
      * rewrite Hext, Htrace, <- app_assoc. reflexivity.
      * rewrite app_comm_cons. apply paced_step; [|exact Hpaced].
        apply Forall_app in Hrest. apply Hrest.
    + eexists. split; [exact Htrace | now apply paced_single].
    + eexists. split; [exact Htrace | now apply paced_single].
    + eexists. split; [exact Htrace | now apply paced_single].
Qed.

(** X15.  In the polling loop every capacity poll but the first comes right
    after a sleep of two seconds: the loop never sends two polls in a row. *)
Theorem polls_are_paced (world : World) (fuel : nat) (st : State)
    (before after : list Event) (key : string) (result : http_result) :
  trace (snd (polling world fuel st)) =
    trace st ++ before ++ EvHttp (GetInstanceTypes key) result :: after ->
  before = [] \/ exists earlier, before = earlier ++ [EvSleep 2].
Proof.
  intros Htrace. destruct (polling_paced world fuel st) as (ext & Hext & Hpaced).
  rewrite Htrace in Hext. apply app_inv_head in Hext. subst ext.
  now apply (Hpaced before after key result).
Qed.

Lemma polls_are_paced_witness :
  [ EvHttp (GetInstanceTypes "secret") (inr (snapshot "gpu_1x_a10" []));
    EvPrint [JStr "Instance type "; JStr "gpu_1x_a10";
             JStr " not found. Retrying in 2 seconds..."];
    EvSleep 2 ] = [] \/
  exists earlier,
    [ EvHttp (GetInstanceTypes "secret") (inr (snapshot "gpu_1x_a10" []));
      EvPrint [JStr "Instance type "; JStr "gpu_1x_a10";
               JStr " not found. Retrying in 2 seconds..."];
      EvSleep 2 ] = earlier ++ [EvSleep 2].
Proof.
  apply (polls_are_paced world_retry_loop 3
           {| vars := vars (requested "us-east-1" "gpu_1x_a10" "good" "1");
              n_input := 0; n_http := 1; trace := [] |}
           [ EvHttp (GetInstanceTypes "secret") (inr (snapshot "gpu_1x_a10" []));
             EvPrint [JStr "Instance type "; JStr "gpu_1x_a10";
                      JStr " not found. Retrying in 2 seconds..."];
             EvSleep 2 ]
           (skipn 4 (trace (snd (polling world_retry_loop 3
                      {| vars := vars (requested "us-east-1" "gpu_1x_a10" "good" "1");
                         n_input := 0; n_http := 1; trace := [] |}))))
           "secret" (inr (snapshot "gpu_1x_a10" ["us-east-1"]))).
  vm_compute. reflexivity.
Defined.

(** ** The instance type of the launches *)

Lemma launches_listed_snoc (t : list Event) (e : Event) :
  (forall key data result,
     e = EvHttp (PostLaunch key data) result ->
     In (d_instance_type_name data) get_instance_types) ->
  launches_listed t -> launches_listed (t ++ [e]).
Proof. intros He Ht. apply Forall_app. split; [exact Ht | now constructor]. Qed.

Ltac listed_side :=
  intros;
  first [ assumption
        | exact I
        | now left
        | apply no_launch_snoc; [reflexivity | assumption]
        | apply launches_listed_snoc;
          [ intros ? ? ? Heq;
            first [ discriminate Heq | now injection Heq as _ <- _ ]
          | assumption ] ].

Lemma prompts_keep_listed (world : World) (fuel : nat) :
  maintains launches_listed
    (fun l => In (desired_instance_type l) get_instance_types)
    (fun _ => launches_listed)
    (region_selection world fuel ;; ssh_key_selection world fuel ;;
     file_system_selection world fuel ;; quantity_selection world fuel ;;
     launch_loop world fuel).
Proof. maintain listed_side. Qed.

Lemma no_launch_listed (st : State) :
  holds no_launch (fun _ => True) st -> launches_listed (trace st).
Proof.
  intros [H _]. unfold no_launch, launches_listed in *.
  eapply Forall_impl; [|exact H].
  intros e He key data result ->. discriminate.
Qed.

Lemma instance_type_selection_no_launch (world : World) (fuel : nat) :
  maintains no_launch (fun _ => True) (fun _ => no_launch)
    (instance_type_selection world fuel).
Proof. maintain no_launch_side. Qed.

Lemma type_then_launch (world : World) (fuel : nat) :
  establishes no_launch (fun _ => True) (fun st => launches_listed (trace st))
    (instance_type_selection world fuel ;; region_selection world fuel ;;
     ssh_key_selection world fuel ;; file_system_selection world fuel ;;
     quantity_selection world fuel ;; launch_loop world fuel).
Proof.
  intros st H. unfold bind at 1.
  pose proof (instance_type_selection_no_launch world fuel st H) as Hq.
  destruct (instance_type_selection world fuel st) as [[[]| |e|] st1] eqn:Hsel;
    cbn [snd];
    try (apply no_launch_listed; destruct e; exact Hq);
    try (apply no_launch_listed; exact Hq).
  apply instance_type_selection_listed in Hsel.
  assert (H1 : holds launches_listed
                 (fun l => In (desired_instance_type l) get_instance_types) st1).
  { split; [now apply no_launch_listed | exact Hsel]. }
  pose proof (prompts_keep_listed world fuel st1 H1) as Hl.
  match goal with
  | |- launches_listed (trace (snd ?r)) => destruct r as [[[]| |[e|t]|] st2]
  end; apply Hl.
Qed.

(** X16.  In every run of the script each launch request names an instance
    type of the static catalog (the type taken at the prompt, or the one the
    fallback puts in its place). *)
Theorem launches_name_listed_types (world : World) (fuel : nat)
    (key : string) (data : launch_data) (result : http_result) :
  In (EvHttp (PostLaunch key data) result) (trace (snd (main world fuel initial))) ->
  In (d_instance_type_name data) get_instance_types.
Proof.
  intros Hin.
  assert (H0 : holds no_launch (fun _ => True) initial) by (split; [constructor | exact I]).
  assert (Hmain : establishes no_launch (fun _ => True)
                    (fun st => launches_listed (trace st)) (main world fuel)).
  { unfold main.
    do 4 (apply establishes_bind with (XT := fun _ => no_launch);
          [ maintain no_launch_side
          | exact no_launch_listed
          | intros _; exact no_launch_listed
          | intros _ ]).
    apply type_then_launch. }
  specialize (Hmain initial H0). unfold launches_listed in Hmain.
  rewrite Forall_forall in Hmain. exact (Hmain _ Hin key data result eq_refl).
Qed.

Lemma launches_name_listed_types_witness :
  In "gpu_8x_h100_sxm5" get_instance_types.
Proof.
  apply (launches_name_listed_types world_other_type 3 "secret"
           {| d_region_name := JStr "us-south-1";
              d_instance_type_name := "gpu_8x_h100_sxm5";
              d_ssh_key_names := ["good"]; d_file_system_names := [];
              d_quantity := "2" |}
           (inr launched_body)).
  vm_compute. repeat (first [left; reflexivity | right]).
Defined.

(** ** The launch after the polls, for every run *)

Lemma empty_region_launches_use_fallback_witness :
  extends_with fallback_launch []
    (trace (snd (launch_loop world_second_launch 5
                   (requested "" "gpu_1x_a10" "good" "1")))).
Proof.
  apply (empty_region_launches_use_fallback world_second_launch 5
           (requested "" "gpu_1x_a10" "good" "1")).
  reflexivity.
Defined.

Lemma retry_is_final_witness :
  forallb is_print [] = true /\
  fst (polling world_other_key 2 (requested "us-east-1" "gpu_1x_a10" "good" "1")) <>
    OutOfFuel.
Proof.
  apply (retry_is_final world_other_key 2
           (requested "us-east-1" "gpu_1x_a10" "good" "1")
           "secret"
           {| d_region_name := JStr "us-east-1"; d_instance_type_name := "gpu_1x_a10";
              d_ssh_key_names := ["mistyped"]; d_file_system_names := [];
              d_quantity := "1" |}
           (inr launched_body)
           [ EvHttp (GetInstanceTypes "secret") (inr (snapshot "gpu_1x_a10" ["us-east-1"]));
             EvInput "SSH key name: " "mistyped";
             EvPrint [JStr "Launching "; JStr "gpu_1x_a10"; JStr " in region ";
                      JStr "us-east-1"; JStr "..."] ]
           []).
  vm_compute. reflexivity.
Defined.

Lemma retry_without_success_key_witness :
  fst (polling world_other_key 1 (requested "us-east-1" "gpu_1x_a10" "good" "1")) =
    Raise (Builtin (KeyError "success")).
Proof.
  apply (retry_without_success_key world_other_key 0
           (requested "us-east-1" "gpu_1x_a10" "good" "1")
           (JArr [region_entry "us-east-1"])
           (snapshot "gpu_1x_a10" ["us-east-1"])
           [("data", JObj [("instance_ids", JArr [JStr "i-123"])])]).
  - discriminate.
  - reflexivity.
  - eexists _, _, _. repeat split; reflexivity.
  - reflexivity.
  - reflexivity.
Defined.

(** ** The GPU test *)

Lemma length_split_lines (s : string) :
  length (GpuTest.split_lines s) = S (GpuTest.newlines s).
Proof.
  induction s as [|c s IH]; simpl.
  - reflexivity.
  - destruct (nat_of_ascii c =? 10)%nat; simpl.
    + now rewrite IH.
    + destruct (GpuTest.split_lines s) as [|line rest]; [discriminate IH | exact IH].
Qed.

(** X17.  [get_gpu_count] returns the number of lines of the output of
    nvidia-smi once stripped, one more than its line feeds: at least 1, also
    when nvidia-smi prints nothing.  It returns 0 exactly when running
    nvidia-smi or decoding its output raised. *)
Theorem gpu_count_is_line_count (m : GpuTest.Machine) :
  (forall output,
     GpuTest.nvidia_smi m = inr output ->
     snd (GpuTest.get_gpu_count m) = S (GpuTest.newlines (GpuTest.strip output))) /\
  (snd (GpuTest.get_gpu_count m) = 0 <-> exists e, GpuTest.nvidia_smi m = inl e).
Proof.
  unfold GpuTest.get_gpu_count. split.
  - intros output ->. cbn [snd]. apply length_split_lines.
  - destruct (GpuTest.nvidia_smi m) as [e|output]; cbn [snd].
    + split; [now exists e | reflexivity].
    + rewrite length_split_lines. split; [discriminate | intros [e He]; discriminate].
Qed.

Lemma gpu_count_is_line_count_witness :
  snd (GpuTest.get_gpu_count GpuTest.silent_smi) = S (GpuTest.newlines (GpuTest.strip "")) /\
  (snd (GpuTest.get_gpu_count GpuTest.no_smi) = 0 <->
   exists e, GpuTest.nvidia_smi GpuTest.no_smi = inl e).
Proof.
  split.
  - apply (proj1 (gpu_count_is_line_count GpuTest.silent_smi) ""). reflexivity.
  - apply (proj2 (gpu_count_is_line_count GpuTest.no_smi)).
Defined.

Lemma test_devices_prints (m : GpuTest.Machine) (devices : list nat) (s : string) :
  ~ In (GpuTest.Printed [GpuTest.Text s]) (fst (GpuTest.test_devices m devices)).
Proof.
  induction devices as [|i rest IH]; simpl.
  - tauto.
  - destruct (GpuTest.device_name m i) as [e|name]; simpl.
    + intros [H|[]]. discriminate.
    + destruct (GpuTest.work m i) as [e|]; simpl.
      * intros [H|[H|[H|[]]]]; discriminate.
      * destruct (GpuTest.synchronize m i) as [e|]; simpl.
        -- intros [H|[H|[H|[H|[H|[H|[]]]]]]]; discriminate.
        -- destruct (GpuTest.test_devices m rest) as [t r]; simpl in *.
           intros [H|[H|[H|[H|H]]]]; try discriminate. now apply IH.
Qed.

Lemma test_devices_finished (m : GpuTest.Machine) (devices : list nat) :
  snd (GpuTest.test_devices m devices) = GpuTest.Finished <->
  Forall (GpuTest.sound m) devices.
Proof.
  induction devices as [|i rest IH]; simpl.
  - split; [constructor | reflexivity].
  - unfold GpuTest.sound at 1.
    destruct (GpuTest.device_name m i) as [e|name] eqn:Hname; simpl.
    + split; [discriminate|]. intros H. inversion H as [|? ? ((n & Hn) & _) _]; subst.
      rewrite Hname in Hn. discriminate.
    + destruct (GpuTest.work m i) as [e|] eqn:Hwork; simpl.
      * split; [discriminate|]. intros H. inversion H as [|? ? (_ & Hw & _) _]; subst.
        rewrite Hwork in Hw. discriminate.
      * destruct (GpuTest.synchronize m i) as [e|] eqn:Hsync; simpl.
        -- split; [discriminate|]. intros H.
           inversion H as [|? ? (_ & _ & Hs) _]; subst.
           rewrite Hsync in Hs. discriminate.
        -- destruct (GpuTest.test_devices m rest) as [t r]; simpl in *.
           rewrite IH. split.
           ++ intros H. constructor; [|exact H].
              repeat split; [now exists name | exact Hwork | exact Hsync].
           ++ intros H. now inversion H.
Qed.

(** Where a print of one text can sit in the trace of [main]: not in what the
    loop over the devices has done. *)
Ltac find_print H :=
  repeat (apply in_app_or in H; destruct H as [H|H]);
  try (now apply test_devices_prints in H);
  simpl in H; intuition discriminate.

(** X18.  The test reports that no GPU is available exactly when running
    nvidia-smi (or decoding its output) raised: whatever nvidia-smi prints,
    an empty output included, counts as at least one GPU. *)
Theorem no_gpus_reported_iff_smi_raised (m : GpuTest.Machine) :
  In (GpuTest.Printed
        [GpuTest.Text "No GPUs available. Make sure NVIDIA drivers are properly installed."])
     (fst (GpuTest.main m)) <->
  exists e, GpuTest.nvidia_smi m = inl e.
Proof.
  unfold GpuTest.main, GpuTest.get_gpu_count.
  destruct (GpuTest.nvidia_smi m) as [e|output].
  - cbn [Nat.eqb fst]. split; [intros _; now exists e|]. intros _.
    apply in_or_app. right. now left.
  - rewrite length_split_lines. cbn [Nat.eqb].
    split; [|intros [e He]; discriminate]. intros H. exfalso.
    destruct (negb _).
    + cbn [fst] in H. find_print H.
    + destruct (GpuTest.test_devices m (seq 0 (GpuTest.device_count m))) as [t r] eqn:Ht.
      assert (Hloop : forall s, ~ In (GpuTest.Printed [GpuTest.Text s]) t).
      { intros s. pose proof (test_devices_prints m (seq 0 (GpuTest.device_count m)) s) as Hp.
        now rewrite Ht in Hp. }
      destruct r; cbn [fst] in H;
        repeat (apply in_app_or in H; destruct H as [H|H]);
        try (now apply Hloop in H); simpl in H; intuition discriminate.
Qed.

(** X19.  The test ends with "All GPUs are utilized." exactly when
    nvidia-smi ran, the number of lines of its stripped output is the number
    of devices PyTorch counts, and every one of these devices gave its name,
    took the computation and synchronized. *)
Theorem all_utilized_iff (m : GpuTest.Machine) :
  In (GpuTest.Printed [GpuTest.Text "All GPUs are utilized."]) (fst (GpuTest.main m)) <->
  (exists output,
     GpuTest.nvidia_smi m = inr output /\
     S (GpuTest.newlines (GpuTest.strip output)) = GpuTest.device_count m) /\
  (forall i, i < GpuTest.device_count m -> GpuTest.sound m i).
Proof.
  assert (Hseq : Forall (GpuTest.sound m) (seq 0 (GpuTest.device_count m)) <->
                 forall i, i < GpuTest.device_count m -> GpuTest.sound m i).
  { rewrite Forall_forall. split.
    - intros H i Hi. apply H, in_seq. lia.
    - intros H i Hi. apply in_seq in Hi. apply H. lia. }
  rewrite <- Hseq, <- test_devices_finished.
  unfold GpuTest.main, GpuTest.get_gpu_count.
  destruct (GpuTest.nvidia_smi m) as [e|output].
  - cbn [Nat.eqb fst]. split.
    + intros H. exfalso.
      repeat (apply in_app_or in H; destruct H as [H|H]); simpl in H;
        intuition discriminate.
    + intros [(output & Hout & _) _]. discriminate.
  - rewrite length_split_lines.
    change (S (GpuTest.newlines (GpuTest.strip output)) =? 0)%nat with false.
    cbv iota.
    destruct (Nat.eqb_spec (S (GpuTest.newlines (GpuTest.strip output)))
                (GpuTest.device_count m)) as [Hcount|Hcount]; cbn [negb].
    + destruct (GpuTest.test_devices m (seq 0 (GpuTest.device_count m))) as [t r] eqn:Ht.
      assert (Hloop : forall s, ~ In (GpuTest.Printed [GpuTest.Text s]) t).
      { intros s. pose proof (test_devices_prints m (seq 0 (GpuTest.device_count m)) s) as Hp.
        now rewrite Ht in Hp. }
      cbn [snd]. destruct r; cbn [fst].
      * split; [|intros _; do 3 (apply in_or_app; right); now left].
        intros _. split; [now exists output | reflexivity].
      * split; [|intros [_ H]; discriminate]. intros H. exfalso.
        repeat (apply in_app_or in H; destruct H as [H|H]);
          try (now apply Hloop in H); simpl in H; intuition discriminate.
      * split; [|intros [_ H]; discriminate]. intros H. exfalso.
        repeat (apply in_app_or in H; destruct H as [H|H]);
          try (now apply Hloop in H); simpl in H; intuition discriminate.
    + cbn [fst]. split.
      * intros H. exfalso.
        repeat (apply in_app_or in H; destruct H as [H|H]); simpl in H;
          intuition discriminate.
      * intros [(output' & [= <-] & Heq) _]. contradiction.
Qed.

Lemma all_utilized_iff_witness :
  In (GpuTest.Printed [GpuTest.Text "All GPUs are utilized."])
     (fst (GpuTest.main GpuTest.two_gpus)).
Proof.
  apply (proj2 (all_utilized_iff GpuTest.two_gpus)). split.
  - eexists. split; reflexivity.
  - intros i Hi. repeat split. now exists "NVIDIA A10".
Defined.

Lemma test_devices_stops (m : GpuTest.Machine) (i : nat) (name e : string)
    (pre post : list nat) :
  Forall (GpuTest.sound m) pre ->
  GpuTest.device_name m i = inr name ->
  GpuTest.work m i = None ->
  GpuTest.synchronize m i = Some e ->
  exists t,
    GpuTest.test_devices m (pre ++ i :: post) =
      (t ++ [ GpuTest.Work i; GpuTest.Synchronize i;
              GpuTest.Printed [GpuTest.Text "Error occurred while utilizing GPU ";
                             GpuTest.Num i; GpuTest.Text ": "; GpuTest.Exc e];
              GpuTest.Printed [GpuTest.Text "GPU "; GpuTest.Num i;
                             GpuTest.Text " is not being utilized correctly."] ],
       GpuTest.Returned) /\
    forall j, In (GpuTest.Work j) t -> In j pre.
Proof.
  intros Hpre Hname Hwork Hsync.
  induction Hpre as [|p pre ((pname & Hp) & Hpw & Hps) _ (t & Ht & Hin)].
  - cbn [app GpuTest.test_devices]. rewrite Hname, Hwork, Hsync.
    exists [GpuTest.DeviceName i;
            GpuTest.Printed [GpuTest.Text "Using GPU "; GpuTest.Num i;
                           GpuTest.Text ": "; GpuTest.Text name]].
    split; [reflexivity|].
    intros j [H|[H|[]]]; discriminate.
  - cbn [app GpuTest.test_devices]. rewrite Hp, Hpw, Hps, Ht.
    exists ([GpuTest.DeviceName p;
             GpuTest.Printed [GpuTest.Text "Using GPU "; GpuTest.Num p;
                            GpuTest.Text ": "; GpuTest.Text pname];
             GpuTest.Work p; GpuTest.Synchronize p] ++ t).
    split; [now rewrite <- app_assoc|].
    intros j [H|[H|[H|[H|H]]]]; try discriminate.
    + injection H as ->. now left.
    + right. now apply Hin.
Qed.

(** X20.  When the device [i] is the first whose synchronization raises (the
    counts agree and the devices before it are fine), the test reports the
    error for that device and ends there, normally: no device after [i] is
    given any work. *)
Theorem failed_synchronize_ends_test (m : GpuTest.Machine) (i : nat)
    (output name e : string) :
  GpuTest.nvidia_smi m = inr output ->
  S (GpuTest.newlines (GpuTest.strip output)) = GpuTest.device_count m ->
  i < GpuTest.device_count m ->
  (forall j, j < i -> GpuTest.sound m j) ->
  GpuTest.device_name m i = inr name ->
  GpuTest.work m i = None ->
  GpuTest.synchronize m i = Some e ->
  snd (GpuTest.main m) = GpuTest.Returned /\
  (forall j, In (GpuTest.Work j) (fst (GpuTest.main m)) -> j <= i) /\
  exists before,
    fst (GpuTest.main m) =
      before ++
      [ GpuTest.Printed [GpuTest.Text "Error occurred while utilizing GPU ";
                       GpuTest.Num i; GpuTest.Text ": "; GpuTest.Exc e];
        GpuTest.Printed [GpuTest.Text "GPU "; GpuTest.Num i;
                       GpuTest.Text " is not being utilized correctly."] ].
Proof.
  intros Hsmi Hcount Hi Hbefore Hname Hwork Hsync.
  assert (Hseq : seq 0 (GpuTest.device_count m) =
                 seq 0 i ++ i :: seq (S i) (GpuTest.device_count m - S i)).
  { replace (GpuTest.device_count m) with (i + S (GpuTest.device_count m - S i)) at 1
      by lia.
    rewrite seq_app. reflexivity. }
  assert (Hpre : Forall (GpuTest.sound m) (seq 0 i)).
  { apply Forall_forall. intros j Hj. apply in_seq in Hj. apply Hbefore. lia. }
  destruct (test_devices_stops m i name e (seq 0 i)
              (seq (S i) (GpuTest.device_count m - S i)) Hpre Hname Hwork Hsync)
    as (t & Ht & Hin).
  unfold GpuTest.main, GpuTest.get_gpu_count. rewrite Hsmi, length_split_lines.
  change (S (GpuTest.newlines (GpuTest.strip output)) =? 0)%nat with false. cbv iota.
  rewrite Hcount, Nat.eqb_refl. cbn [negb]. rewrite Hseq, Ht. cbn [fst snd].
  split; [reflexivity|]. split.
  - intros j H.
    repeat (apply in_app_or in H; destruct H as [H|H]);
      try (simpl in H; intuition discriminate).
    + apply Hin, in_seq in H. lia.
    + destruct H as [H|H]; [injection H as <-; lia | simpl in H; intuition discriminate].
  - eexists. rewrite !app_assoc.
    change [GpuTest.Work i; GpuTest.Synchronize i;
            GpuTest.Printed [GpuTest.Text "Error occurred while utilizing GPU ";
                           GpuTest.Num i; GpuTest.Text ": "; GpuTest.Exc e];
            GpuTest.Printed [GpuTest.Text "GPU "; GpuTest.Num i;
                           GpuTest.Text " is not being utilized correctly."]]
      with ([GpuTest.Work i; GpuTest.Synchronize i] ++
            [GpuTest.Printed [GpuTest.Text "Error occurred while utilizing GPU ";
                            GpuTest.Num i; GpuTest.Text ": "; GpuTest.Exc e];
             GpuTest.Printed [GpuTest.Text "GPU "; GpuTest.Num i;
                            GpuTest.Text " is not being utilized correctly."]]).
    rewrite app_assoc. reflexivity.
Qed.

Lemma failed_synchronize_ends_test_witness :
  snd (GpuTest.main GpuTest.second_gpu_fails) = GpuTest.Returned /\
  (forall j, In (GpuTest.Work j) (fst (GpuTest.main GpuTest.second_gpu_fails)) -> j <= 1) /\
  exists before,
    fst (GpuTest.main GpuTest.second_gpu_fails) =
      before ++
      [ GpuTest.Printed [GpuTest.Text "Error occurred while utilizing GPU ";
                       GpuTest.Num 1; GpuTest.Text ": "; GpuTest.Exc "CUDA error"];
        GpuTest.Printed [GpuTest.Text "GPU "; GpuTest.Num 1;
                       GpuTest.Text " is not being utilized correctly."] ].
Proof.
  apply (failed_synchronize_ends_test GpuTest.second_gpu_fails 1
           "GPU 0: A
GPU 1: B
GPU 2: C" "NVIDIA A10" "CUDA error").
  - reflexivity.
  - reflexivity.
  - simpl. lia.
  - intros j Hj. assert (j = 0) as -> by lia. repeat split. now exists "NVIDIA A10".
  - reflexivity.
  - reflexivity.
  - reflexivity.
Defined.
